(** * The MultiWOZ database query of ConvLab

    A shallow embedding of [convlab/modules/util/multiwoz/dbquery.py]:
    the module-level store [dbs] and the function [query], together with
    the Python built-ins it calls ([str.lower], [str.strip], [str.split],
    [int], [random.choice], [random.randint]) and the [try]/[except],
    [break], [continue] and [for]/[else] control flow of its two loops.

    Conventions of the model.
    - A Python [str] is a [string]; the built-ins follow CPython on ASCII
      text, and a character above 127 is an ordinary one (not a space, a
      letter or a digit).
    - A value loaded by [json.load] is a [value]; a JSON object is a finite
      map from field names, so a record is a [gmap string value].  JSON
      numbers with a fraction are not represented: [query] never looks
      inside a number.
    - An exception is a value of [exn]; code that may raise returns
      [exn + A].
    - The Porter stemmer and the random generator are libraries outside the
      repository: the stemmer is a function [stem], the generator a state
      [rng] with the primitive [randbelow] of Python's [random] module. *)

From stdpp Require Import gmap strings list fin_maps.
From Stdlib Require Import ZArith Ascii DecimalString.

Set Warnings "-register-all".

(** ** Exceptions *)

Inductive exn : Type :=
| KeyError
| IndexError
| ValueError
| AttributeError
| TypeError.

Definition exn_bind {A B} (m : exn + A) (f : A → exn + B) : exn + B :=
  match m with
  | inl e => inl e
  | inr x => f x
  end.

Declare Scope exn_scope.
Delimit Scope exn_scope with exn.
Notation "x <- m ;; k" := (exn_bind m (λ x, k))
  (at level 100, m at next level, right associativity) : exn_scope.
Infix ">>=" := exn_bind (at level 50, left associativity) : exn_scope.

(** [try: body except: handler]: the bare [except] catches every
    exception. *)
Definition try_except {A} (body : exn + A) (handler : A) : A :=
  match body with
  | inl _ => handler
  | inr x => x
  end.

(** ** Python strings *)

Module Str.

Definition upper_letter (c : ascii) : bool :=
  (65 <=? nat_of_ascii c)%nat && (nat_of_ascii c <=? 90)%nat.

Definition lower_char (c : ascii) : ascii :=
  if upper_letter c then ascii_of_nat (nat_of_ascii c + 32) else c.

(** [s.lower()] *)
Fixpoint lower (s : string) : string :=
  match s with
  | "" => ""
  | String c s' => String (lower_char c) (lower s')
  end.

(** The characters [str.isspace] accepts: tab, line feed, vertical tab,
    form feed, carriage return, the four separators 28..31 and space. *)
Definition isspace (c : ascii) : bool :=
  let n := nat_of_ascii c in
  ((9 <=? n) && (n <=? 13) || (28 <=? n) && (n <=? 32))%nat.

Fixpoint lstrip_by (sp : ascii → bool) (s : string) : string :=
  match s with
  | "" => ""
  | String c s' => if sp c then lstrip_by sp s' else s
  end.

Definition rstrip_by (sp : ascii → bool) (s : string) : string :=
  String.rev (lstrip_by sp (String.rev s)).

Definition strip_by (sp : ascii → bool) (s : string) : string :=
  rstrip_by sp (lstrip_by sp s).

(** [s.strip()] *)
Definition strip (s : string) : string := strip_by isspace s.

(** [s.split(sep)] for a separator of one character: the pieces between
    the separators, empty pieces included; never an empty list. *)
Fixpoint split_go (sep : ascii) (cur : string) (s : string) : list string :=
  match s with
  | "" => [String.rev cur]
  | String c s' =>
      if bool_decide (c = sep) then String.rev cur :: split_go sep "" s'
      else split_go sep (String c cur) s'
  end.

Definition split (sep : ascii) (s : string) : list string :=
  split_go sep "" s.

Definition digit (c : ascii) : option Z :=
  Z.of_nat <$> Ascii.is_nat c.

(** The digits of a decimal literal after its first digit: a digit, or
    one underscore followed by a digit. *)
Fixpoint digits (acc : Z) (s : string) : option Z :=
  match s with
  | "" => Some acc
  | String c s' =>
      match digit c with
      | Some d => digits (acc * 10 + d) s'
      | None =>
          if bool_decide (c = "_"%char) then
            match s' with
            | String c' s'' =>
                match digit c' with
                | Some d => digits (acc * 10 + d) s''
                | None => None
                end
            | "" => None
            end
          else None
      end
  end.

Definition literal (s : string) : option Z :=
  match s with
  | String c s' => d ← digit c; digits d s'
  | "" => None
  end.

(** [int(s)] in base ten: surrounding white space (the six characters of
    C's [isspace]) is dropped, one sign is allowed, and the rest is a
    decimal literal; anything else raises [ValueError]. *)
Definition int (s : string) : exn + Z :=
  let t := strip_by Ascii.is_space s in
  let signed :=
    match t with
    | String "+" r => (1, r)
    | String "-" r => (-1, r)
    | _ => (1, t)
    end%Z in
  match literal signed.2 with
  | Some n => inr (signed.1 * n)%Z
  | None => inl ValueError
  end.

End Str.

(** [l[i]] on a list *)
Definition item {A} (l : list A) (i : nat) : exn + A :=
  match l !! i with
  | Some x => inr x
  | None => inl IndexError
  end.

(** ** JSON values and records *)

Inductive value : Type :=
| VNull
| VBool (b : bool)
| VInt (z : Z)
| VStr (s : string)
| VList (l : list value)
| VObj (o : gmap string value).

Abbreviation record := (gmap string value).

(** [d[k]] on a dictionary *)
Definition getitem {A} (d : gmap string A) (k : string) : exn + A :=
  match d !! k with
  | Some x => inr x
  | None => inl KeyError
  end.

(** The field names of a record, as [for key in record] yields them. *)
Definition keys (r : record) : list string := (map_to_list r).*1.

(** A method of [str] called on a value: only a string has [split] and
    [strip]. *)
Definition str_method (v : value) : exn + string :=
  match v with
  | VStr s => inr s
  | _ => inl AttributeError
  end.

(** ** The store

    [dbs] maps each domain to what [json.load] read from its file: for
    [taxi] one JSON object holding the option lists, for every other domain
    an array of records.  [query] reads [dbs['taxi']] only in its taxi
    branch and the other entries only in the other branches, so the store
    is kept as these two parts. *)

Record store : Type := Store {
  taxi_db : gmap string value;
  record_dbs : gmap string (list (gmap string value))
}.

(** ** Random numbers

    A computation that draws random numbers threads the generator state
    and may raise. *)

Definition rand (G A : Type) : Type := G → (exn + A) * G.

Definition rand_ret {G A} (x : A) : rand G A := λ g, (inr x, g).

Definition rand_bind {G A B} (m : rand G A) (f : A → rand G B) : rand G B :=
  λ g, match m g with
       | (inl e, g') => (inl e, g')
       | (inr x, g') => f x g'
       end.

(** A computation that does not draw. *)
Definition lift {G A} (m : exn + A) : rand G A := λ g, (m, g).

Declare Scope rand_scope.
Delimit Scope rand_scope with rand.
Notation "x <~ m ;; k" := (rand_bind m (λ x, k))
  (at level 100, m at next level, right associativity) : rand_scope.

(** [[m for _ in range(n)]] *)
Fixpoint repeat_rand {G A} (n : nat) (m : rand G A) : rand G (list A) :=
  match n with
  | O => rand_ret []
  | S n' => (x <~ m ;; xs <~ repeat_rand n' m ;; rand_ret (x :: xs))%rand
  end.

(** ** Fixtures

    A generator for tests: it replays a tape of numbers, each reduced
    below the bound asked for, and answers 0 once the tape is used up. *)
Definition tape_randbelow (n : nat) (g : list nat) : nat * list nat :=
  match g with
  | [] => (0, [])
  | x :: g' => (x mod n, g')
  end.

(** A stemmer for tests: it only lowers the case of its word. *)
Definition stem_lower (word : string) : string := Str.lower word.

(** The text ["HH:MM"] of a clock time: two decimal digits for the hour,
    a colon, two decimal digits for the minute. *)
Definition digit_char (n : nat) : ascii := ascii_of_nat (48 + n).

Definition clock (hour minute : nat) : string :=
  String (digit_char (hour / 10)) (String (digit_char (hour mod 10))
    (String ":" (String (digit_char (minute / 10))
      (String (digit_char (minute mod 10)) "")))).

(** The two trains of the minimal fixture *)
Definition train_0800 : gmap string value :=
  {[ "leaveAt" := VStr "08:00"; "destination" := VStr "cambridge" ]}.

Definition train_0930 : gmap string value :=
  {[ "leaveAt" := VStr "09:30"; "destination" := VStr "cambridge" ]}.

Definition fixture : store :=
  Store
    {[ "taxi_colors" := VList [VStr "black"; VStr "white"; VStr "red"];
       "taxi_types" := VList [VStr "toyota"; VStr "skoda"] ]}
    {[ "train" := [train_0800; train_0930];
       "police" := [ {[ "name" := VStr "Parkside Police Station" ]} ];
       "hospital" := [ {[ "department" := VStr "neurology" ]};
                       {[ "department" := VStr "oncology" ]} ];
       "restaurant" := [ {[ "Area" := VStr "centre";
                            "name" := VStr "pizza hut" ]} ] ]}.

(** ** Helpers of [convlab/lib/util.py] *)

Module Util.

(** The exception of [%] on integers *)
Inductive arith_exn : Type :=
| ZeroDivisionError.

(** [frame_mod(frame, frequency, num_envs)] on integers; [num_envs] may
    be [None].  [num_envs or 1] is 1 for [None] and for 0, and Python's
    [%] is the remainder of the floor division, as [Z.modulo]. *)
Definition frame_mod (frame frequency : Z) (num_envs : option Z)
    : arith_exn + bool :=
  let remainder :=
    match num_envs with
    | Some n => if bool_decide (n = 0)%Z then 1%Z else n
    | None => 1%Z
    end in
  if bool_decide (frequency = 0)%Z then inl ZeroDivisionError
  else inr (bool_decide (frame `mod` frequency < remainder)%Z).

(** [c in s] for one character *)
Fixpoint has_char (c : ascii) (s : string) : bool :=
  match s with
  | "" => false
  | String a s' => bool_decide (a = c) || has_char c s'
  end.

(** [sep.join(l)] *)
Fixpoint join (sep : string) (l : list string) : string :=
  match l with
  | [] => ""
  | x :: rest =>
      match rest with
      | [] => x
      | _ :: _ => x +:+ sep +:+ join sep rest
      end
  end.

(** [l.pop()]: the last element, and the list that is left; an empty list
    raises [IndexError]. *)
Definition pop {A} (l : list A) : exn + (A * list A) :=
  match last l with
  | Some x => inr (x, removelast l)
  | None => inl IndexError
  end.

(** [insert_folder(prepath, folder)] *)
Definition insert_folder (prepath folder : string) : exn + string :=
  let split_path := Str.split "/" prepath in
  exn_bind (pop split_path) (λ popped,
    let prename := popped.1 in
    let split_path := popped.2 ++ [folder; prename] in
    inr (join "/" split_path)).

(** [sub in s] *)
Fixpoint contains (sub s : string) : bool :=
  String.prefix sub s
  || match s with
     | "" => false
     | String _ s' => contains sub s'
     end.

(** [s.replace(old, new)] for a text [old] that is not empty: the
    occurrences of [old] are replaced from left to right, an occurrence
    starting after the end of the one before.  [skip] counts the
    characters of a replaced occurrence that are still to be passed. *)
Fixpoint replace_go (old new : string) (skip : nat) (s : string) : string :=
  match s with
  | "" => ""
  | String c s' =>
      match skip with
      | S k => replace_go old new k s'
      | O =>
          if String.prefix old s
          then new +:+ replace_go old new (String.length old - 1) s'
          else String c (replace_go old new 0 s')
      end
  end.

Definition replace (old new s : string) : string := replace_go old new 0 s.

(** [find_ckpt(prepath)]: [ps.find] gives the first piece that starts
    with [ckpt], or [None], on which [replace] raises. *)
Definition find_ckpt (prepath : string) : exn + option string :=
  if contains "ckpt" prepath then
    match List.find (String.prefix "ckpt") (Str.split "_" prepath) with
    | Some ckpt_str => inr (Some (replace "ckpt-" "" ckpt_str))
    | None => inl AttributeError
    end
  else inr None.

(** [str(n)] of an integer, as an f-string formats it *)
Definition str (n : Z) : string := NilZero.string_of_int (Z.to_int n).

(** The entries of a spec that [get_prepath] reads: [spec['name']] and,
    in [spec['meta']], a text [experiment_ts], the indices [trial] and
    [session] (an integer or [None]) and the text [ckpt] (or [None]). *)
Record meta_spec : Type := MetaSpec {
  experiment_ts : string;
  trial : option Z;
  session : option Z;
  ckpt : option string
}.

Record spec : Type := Spec {
  name : string;
  meta : meta_spec
}.

(** [get_prepath(spec, unit)] *)
Definition get_prepath (spec : spec) (unit : string) : string :=
  let spec_name := name spec in
  let meta_spec := meta spec in
  let predir := "output/" +:+ spec_name +:+ "_" +:+ experiment_ts meta_spec in
  let prename := spec_name in
  let trial_index := trial meta_spec in
  let session_index := session meta_spec in
  let t_str :=
    match trial_index with
    | None => ""
    | Some t => "_t" +:+ str t
    end in
  let s_str :=
    match session_index with
    | None => ""
    | Some s => "_s" +:+ str s
    end in
  let prename :=
    if bool_decide (unit = "trial") then prename +:+ t_str
    else if bool_decide (unit = "session") then prename +:+ (t_str +:+ s_str)
    else prename in
  let prename :=
    match ckpt meta_spec with
    | Some c => prename +:+ "_ckpt-" +:+ c
    | None => prename
    end in
  predir +:+ "/" +:+ prename.

End Util.

Section Query.

(** [stemmer.stem]: the Porter stemmer of NLTK. *)
Variable stem : string → string.

(** The generator state and [Random._randbelow]: a number below the
    bound, and the next state. *)
Variable rng : Type.
Variable randbelow : nat → rng → nat * rng.
Hypothesis randbelow_lt : ∀ n g, 0 < n → (randbelow n g).1 < n.

(** [random.choice(seq)]: [seq[randbelow(len(seq))]]; an empty sequence
    raises [IndexError], a value without a length [TypeError], and a
    dictionary, indexed by a number, [KeyError]. *)
Definition choice (seq : value) : rand rng value := λ g,
  match seq with
  | VList l =>
      if bool_decide (length l = 0) then (inl IndexError, g)
      else let (i, g') := randbelow (length l) g in (item l i, g')
  | VStr s =>
      let l := (λ c, VStr (String c "")) <$> String.list_ascii_of_string s in
      if bool_decide (length l = 0) then (inl IndexError, g)
      else let (i, g') := randbelow (length l) g in (item l i, g')
  | VObj o =>
      if bool_decide (size o = 0) then (inl IndexError, g)
      else let (i, g') := randbelow (size o) g in (inl KeyError, g')
  | _ => (inl TypeError, g)
  end.

(** [random.randint(a, b)]: [a + randbelow(b - a + 1)] *)
Definition randint (a b : Z) : rand rng Z := λ g,
  if bool_decide (b < a)%Z then (inl ValueError, g)
  else let (i, g') := randbelow (Z.to_nat (b - a + 1)) g in
       (inr (a + Z.of_nat i)%Z, g').

(** ** The comparison of one constraint with one record *)

(** [int(s.split(':')[0]) * 100 + int(s.split(':')[1])] *)
Definition hhmm (s : string) : exn + Z :=
  (h <- item (Str.split ":" s) 0 >>= Str.int ;;
   m <- item (Str.split ":" s) 1 >>= Str.int ;;
   inr (h * 100 + m)%Z)%exn.

(** How the body of the inner loop ends: it runs to its end, or leaves
    through [continue] or through [break]. *)
Inductive flow : Type :=
| Pass
| Continue
| Break.

(** The test of line 34 *)
Definition dontcare (val : string) : bool :=
  bool_decide (val = "") || bool_decide (val = "dont care")
  || bool_decide (val = "not mentioned") || bool_decide (val = "don't care")
  || bool_decide (val = "dontcare") || bool_decide (val = "do n't care").

(** [[key.lower() for key in record]] *)
Definition record_keys (record : gmap string value) : list string :=
  Str.lower <$> keys record.

(** The block under [try] (lines 38 to 56).  The record is not changed
    while it runs, so each of its fields is read once here. *)
Definition compare (ignore_open : bool) (record : gmap string value)
    (key val : string) : exn + flow :=
  (if bool_decide (Str.lower key ∉ record_keys record)
      && bool_decide (stem key ∉ record_keys record)
   then inr Continue
   else if bool_decide (key = "leaveAt") then
     val1 <- hhmm val ;;
     val2 <- getitem record "leaveAt" >>= str_method >>= hhmm ;;
     inr (if bool_decide (val1 > val2)%Z then Break else Pass)
   else if bool_decide (key = "arriveBy") then
     val1 <- hhmm val ;;
     val2 <- getitem record "arriveBy" >>= str_method >>= hhmm ;;
     inr (if bool_decide (val1 < val2)%Z then Break else Pass)
   else if ignore_open && bool_decide (key ∈ ["destination"; "departure"])
   then inr Continue
   else
     field <- getitem record key >>= str_method ;;
     inr (if bool_decide (Str.strip val ≠ Str.strip field) then Break
          else Pass))%exn.

(** The body of the inner loop (lines 34 to 58) *)
Definition constraint (ignore_open : bool) (record : gmap string value)
    (c : string * string) : flow :=
  let '(key, val) := c in
  if dontcare val then Pass
  else try_except (compare ignore_open record key val) Continue.

(** A constraint is satisfied when it does not break out of the loop. *)
Definition satisfied (ignore_open : bool) (record : gmap string value)
    (c : string * string) : bool :=
  match constraint ignore_open record c with
  | Break => false
  | _ => true
  end.

(** ** The two loops *)

(** [for key, val in constraints: ... else: ...]: [true] when the loop
    runs out of constraints, so that its [else] clause runs. *)
Fixpoint for_constraints (ignore_open : bool) (record : gmap string value)
    (constraints : list (string * string)) : bool :=
  match constraints with
  | [] => true
  | c :: rest =>
      match constraint ignore_open record c with
      | Break => false
      | _ => for_constraints ignore_open record rest
      end
  end.

(** [for record in dbs[domain]: ...], with [found] as it grows *)
Fixpoint for_records (ignore_open : bool)
    (constraints : list (string * string))
    (records found : list (gmap string value)) : list (gmap string value) :=
  match records with
  | [] => found
  | record :: rest =>
      for_records ignore_open constraints rest
        (if for_constraints ignore_open record constraints
         then found ++ [record] else found)
  end.

(** ** query *)

Definition query (dbs : store) (domain : string)
    (constraints : list (string * string)) (ignore_open : bool)
    : rand rng (list (gmap string value)) :=
  if bool_decide (domain = "taxi") then
    (colors <~ lift (getitem (taxi_db dbs) "taxi_colors") ;;
     color <~ choice colors ;;
     types <~ lift (getitem (taxi_db dbs) "taxi_types") ;;
     kind <~ choice types ;;
     phone <~ repeat_rand 10 (randint 1 9) ;;
     rand_ret [ ({[ "taxi_colors" := color; "taxi_types" := kind;
                   "taxi_phone" := VList (VInt <$> phone) ]}
                 : gmap string value) ])%rand
  else if bool_decide (domain = "police") then
    lift (getitem (record_dbs dbs) "police")
  else if bool_decide (domain = "hospital") then
    lift (getitem (record_dbs dbs) "hospital")
  else
    (records <~ lift (getitem (record_dbs dbs) domain) ;;
     rand_ret (for_records ignore_open constraints records []))%rand.

(** ** Lemmas on the model *)

Lemma elem_of_keys (record : gmap string value) (k : string) :
  k ∈ keys record ↔ is_Some (record !! k).
Proof.
  unfold keys. rewrite list_elem_of_fmap. split.
  - intros [[k' v] [-> Hin]]. apply elem_of_map_to_list in Hin. eauto.
  - intros [v Hv]. exists (k, v). split; [done|].
    by apply elem_of_map_to_list.
Qed.

Lemma elem_of_record_keys (record : gmap string value) (k : string) :
  k ∈ record_keys record ↔
  ∃ f, is_Some (record !! f) ∧ k = Str.lower f.
Proof.
  unfold record_keys. rewrite list_elem_of_fmap.
  split; intros [f [? ?]]; exists f; by rewrite ?elem_of_keys in *.
Qed.

Lemma lower_in_record_keys (record : gmap string value) (k : string) v :
  record !! k = Some v → Str.lower k ∈ record_keys record.
Proof. intros Hk. apply elem_of_record_keys. exists k. eauto. Qed.

Lemma dontcare_tokens (val : string) :
  dontcare val = true ↔
  val ∈ [""; "dont care"; "not mentioned"; "don't care"; "dontcare";
         "do n't care"].
Proof.
  unfold dontcare. rewrite !orb_true_iff, !bool_decide_eq_true.
  rewrite !elem_of_cons, elem_of_nil. tauto.
Qed.

Lemma dontcare_hhmm (val : string) :
  dontcare val = true → ∃ e, hhmm val = inl e.
Proof.
  rewrite dontcare_tokens, !elem_of_cons, elem_of_nil.
  intros H. decompose [or] H; subst; try done; vm_compute; eauto.
Qed.

Lemma constraint_dontcare io record key val :
  dontcare val = true → constraint io record (key, val) = Pass.
Proof. intros H. unfold constraint. by rewrite H. Qed.

Lemma satisfied_dontcare io record key val :
  dontcare val = true → satisfied io record (key, val) = true.
Proof. intros H. unfold satisfied. by rewrite constraint_dontcare. Qed.

Lemma for_constraints_forallb io record constraints :
  for_constraints io record constraints
  = forallb (satisfied io record) constraints.
Proof.
  induction constraints as [|c rest IH]; [done|]. simpl. unfold satisfied.
  destruct (constraint io record c); simpl; auto.
Qed.

Lemma for_constraints_app io record cs1 cs2 :
  for_constraints io record (cs1 ++ cs2)
  = for_constraints io record cs1 && for_constraints io record cs2.
Proof. rewrite !for_constraints_forallb. apply forallb_app. Qed.

Lemma for_records_filter io constraints records found :
  for_records io constraints records found
  = found ++ filter (λ r, for_constraints io r constraints = true) records.
Proof.
  revert found. induction records as [|r rest IH]; intros found; simpl.
  - by rewrite app_nil_r.
  - rewrite IH. destruct (for_constraints io r constraints) eqn:E.
    + rewrite filter_cons_True by done. by rewrite <- app_assoc.
    + rewrite filter_cons_False; [done|]. by rewrite E.
Qed.

Lemma query_generic dbs domain constraints io g records :
  domain ≠ "taxi" → domain ≠ "police" → domain ≠ "hospital" →
  record_dbs dbs !! domain = Some records →
  query dbs domain constraints io g
  = (inr (filter (λ r, for_constraints io r constraints = true) records), g).
Proof.
  intros Ht Hp Hh Hdb. unfold query.
  rewrite !bool_decide_eq_false_2 by done.
  unfold rand_bind, lift, getitem, rand_ret. rewrite Hdb.
  by rewrite for_records_filter.
Qed.

Lemma query_unknown dbs domain constraints io g :
  domain ≠ "taxi" → domain ≠ "police" → domain ≠ "hospital" →
  record_dbs dbs !! domain = None →
  query dbs domain constraints io g = (inl KeyError, g).
Proof.
  intros Ht Hp Hh Hdb. unfold query.
  rewrite !bool_decide_eq_false_2 by done.
  unfold rand_bind, lift, getitem. by rewrite Hdb.
Qed.

(** The comparison of a time field that is present and well formed. *)
Lemma compare_leaveAt io record val s c t :
  record !! "leaveAt" = Some (VStr s) →
  hhmm val = inr c → hhmm s = inr t →
  compare io record "leaveAt" val
  = inr (if bool_decide (c > t)%Z then Break else Pass).
Proof.
  intros Hr Hv Hs. unfold compare.
  rewrite (bool_decide_eq_false_2 (_ ∉ _)); simpl.
  2:{ intros Hn. apply Hn.
      by apply (lower_in_record_keys record "leaveAt" (VStr s)). }
  unfold getitem. rewrite Hr, Hv. simpl. by rewrite Hs.
Qed.

Lemma compare_arriveBy io record val s c t :
  record !! "arriveBy" = Some (VStr s) →
  hhmm val = inr c → hhmm s = inr t →
  compare io record "arriveBy" val
  = inr (if bool_decide (c < t)%Z then Break else Pass).
Proof.
  intros Hr Hv Hs. unfold compare.
  rewrite (bool_decide_eq_false_2 (_ ∉ _)); simpl.
  2:{ intros Hn. apply Hn.
      by apply (lower_in_record_keys record "arriveBy" (VStr s)). }
  unfold getitem. rewrite Hr, Hv. simpl. by rewrite Hs.
Qed.

(** The comparison of a field that is not a time, outside the
    ignore-open case, when the record has the field under the key as it
    is spelled in the constraint. *)
Lemma compare_default io record key val v :
  key ≠ "leaveAt" → key ≠ "arriveBy" →
  ¬ (io = true ∧ key ∈ ["destination"; "departure"]) →
  record !! key = Some v →
  compare io record key val
  = exn_bind (str_method v) (λ field,
      inr (if bool_decide (Str.strip val ≠ Str.strip field) then Break
           else Pass)).
Proof.
  intros Hl Ha Hio Hr. unfold compare.
  rewrite (bool_decide_eq_false_2 (_ ∉ _)); simpl.
  2:{ intros Hn. apply Hn. by apply (lower_in_record_keys record key v). }
  rewrite !bool_decide_eq_false_2 by done.
  destruct io; simpl.
  - rewrite bool_decide_eq_false_2 by tauto.
    unfold getitem. by rewrite Hr.
  - unfold getitem. by rewrite Hr.
Qed.

(** A field that the record does not have under the key as it is spelled
    in the constraint makes the block raise or leave through [continue]. *)
Lemma compare_missing io record key val :
  record !! key = None →
  compare io record key val = inr Continue
  ∨ ∃ e, compare io record key val = inl e.
Proof.
  intros Hr. unfold compare.
  destruct (bool_decide _ && bool_decide _); [by left|].
  case_bool_decide as Hl.
  { subst key. right. destruct (hhmm val); simpl; [by eauto|].
    unfold getitem. rewrite Hr. simpl. eauto. }
  case_bool_decide as Ha.
  { subst key. right. destruct (hhmm val); simpl; [by eauto|].
    unfold getitem. rewrite Hr. simpl. eauto. }
  destruct (io && _); [by left|].
  right. unfold getitem. rewrite Hr. simpl. eauto.
Qed.

(** A field whose value is not a string: the block cannot end in
    [break]. *)
Lemma compare_not_str io record key val v :
  record !! key = Some v → (∀ s, v ≠ VStr s) →
  compare io record key val = inr Continue
  ∨ ∃ e, compare io record key val = inl e.
Proof.
  intros Hr Hv. unfold compare.
  assert (Hm : str_method v = inl AttributeError).
  { destruct v; try done. by destruct (Hv s). }
  destruct (bool_decide _ && bool_decide _); [by left|].
  case_bool_decide as Hl.
  { subst key. right. destruct (hhmm val); simpl; [by eauto|].
    unfold getitem. rewrite Hr. simpl. rewrite Hm. simpl. eauto. }
  case_bool_decide as Ha.
  { subst key. right. destruct (hhmm val); simpl; [by eauto|].
    unfold getitem. rewrite Hr. simpl. rewrite Hm. simpl. eauto. }
  destruct (io && _); [by left|].
  right. unfold getitem. rewrite Hr. simpl. rewrite Hm. simpl. eauto.
Qed.

Lemma satisfied_raise io record key val e :
  compare io record key val = inl e → satisfied io record (key, val) = true.
Proof.
  intros H. unfold satisfied, constraint.
  destruct (dontcare val); [done|]. by rewrite H.
Qed.

Lemma satisfied_continue io record key val :
  compare io record key val = inr Continue →
  satisfied io record (key, val) = true.
Proof.
  intros H. unfold satisfied, constraint.
  destruct (dontcare val); [done|]. by rewrite H.
Qed.

(** A satisfied constraint can be taken out of the list. *)
Lemma for_constraints_skip io record cs1 c cs2 :
  satisfied io record c = true →
  for_constraints io record (cs1 ++ c :: cs2)
  = for_constraints io record (cs1 ++ cs2).
Proof.
  intros H. rewrite !for_constraints_app. simpl.
  unfold satisfied in H. by destruct (constraint io record c).
Qed.

Lemma for_records_ext io io' cs cs' records found :
  (∀ r, for_constraints io r cs = for_constraints io' r cs') →
  for_records io cs records found = for_records io' cs' records found.
Proof.
  intros H. revert found.
  induction records as [|r rest IH]; intros found; simpl; [done|].
  by rewrite H, IH.
Qed.

(** The constraints reach the result only through [for_constraints]. *)
Lemma query_ext dbs domain io cs cs' g :
  (∀ r, for_constraints io r cs = for_constraints io r cs') →
  query dbs domain cs io g = query dbs domain cs' io g.
Proof.
  intros H. unfold query. repeat case_bool_decide; try done.
  unfold rand_bind, lift. destruct (getitem _ _); [done|].
  unfold rand_ret. f_equal. f_equal. by apply for_records_ext.
Qed.

Lemma for_records_nil io records found :
  for_records io [] records found = found ++ records.
Proof.
  revert found. induction records as [|r rest IH]; intros found; simpl.
  - by rewrite app_nil_r.
  - rewrite IH. by rewrite <- app_assoc.
Qed.

(** A choice from a list that is not empty: the element at the index the
    generator draws. *)
Lemma choice_list (l : list value) g :
  l ≠ [] →
  ∃ x, choice (VList l) g = (inr x, (randbelow (length l) g).2)
       ∧ l !! (randbelow (length l) g).1 = Some x.
Proof.
  intros Hl. unfold choice.
  assert (Hlen : 0 < length l) by (destruct l; simpl; [done|lia]).
  rewrite bool_decide_eq_false_2 by lia.
  pose proof (randbelow_lt (length l) g Hlen) as Hlt.
  destruct (randbelow (length l) g) as [i g'] eqn:E. simpl in *.
  destruct (lookup_lt_is_Some_2 l i Hlt) as [x Hx].
  exists x. unfold item. by rewrite Hx.
Qed.

Lemma randint_range (a b : Z) g :
  (a ≤ b)%Z →
  ∃ x, randint a b g = (inr x, (randbelow (Z.to_nat (b - a + 1)) g).2)
       ∧ (a ≤ x ≤ b)%Z.
Proof.
  intros Hab. unfold randint. rewrite bool_decide_eq_false_2 by lia.
  pose proof (randbelow_lt (Z.to_nat (b - a + 1)) g ltac:(lia)) as Hlt.
  destruct (randbelow _ g) as [i g']. simpl in *.
  eexists. split; [done|]. lia.
Qed.

Lemma repeat_randint (n : nat) (a b : Z) g :
  (a ≤ b)%Z →
  ∃ xs g', repeat_rand n (randint a b) g = (inr xs, g')
           ∧ length xs = n ∧ Forall (λ x, a ≤ x ≤ b)%Z xs.
Proof.
  intros Hab. revert g. induction n as [|n IH]; intros g; simpl.
  - exists [], g. by repeat split.
  - unfold rand_bind at 1.
    destruct (randint_range a b g Hab) as [x [-> Hx]].
    unfold rand_bind at 1.
    destruct (IH (randbelow (Z.to_nat (b - a + 1)) g).2)
      as [xs [g' [-> [Hlen Hall]]]].
    exists (x :: xs), g'. unfold rand_ret. repeat split; simpl; auto.
Qed.

(** The encoding of a clock time: [HOUR*100+MINUTE]. *)
Lemma int_two_digits i j :
  i < 10 → j < 10 →
  Str.int (String (digit_char i) (String (digit_char j) ""))
  = inr (Z.of_nat (10 * i + j)).
Proof.
  intros Hi Hj.
  do 10 (destruct i as [|i];
         [do 10 (destruct j as [|j]; [reflexivity|]); lia|]).
  lia.
Qed.

Lemma digit_char_not_colon i : i < 10 → digit_char i ≠ ":"%char.
Proof.
  intros Hi. do 10 (destruct i as [|i]; [discriminate|]). lia.
Qed.

Lemma hhmm_text a b c d h m :
  a ≠ ":"%char → b ≠ ":"%char → c ≠ ":"%char → d ≠ ":"%char →
  Str.int (String a (String b "")) = inr h →
  Str.int (String c (String d "")) = inr m →
  hhmm (String a (String b (String ":" (String c (String d "")))))
  = inr (h * 100 + m)%Z.
Proof.
  intros Ha Hb Hc Hd Hh Hm.
  assert (Hs : Str.split ":"
                 (String a (String b (String ":" (String c (String d "")))))
               = [String a (String b ""); String c (String d "")]).
  { unfold Str.split. cbn [Str.split_go].
    rewrite !(bool_decide_eq_false_2 (_ = ":"%char)) by done.
    rewrite bool_decide_eq_true_2 by done.
    rewrite !(bool_decide_eq_false_2 (_ = ":"%char)) by done.
    reflexivity. }
  unfold hhmm. rewrite Hs. cbn [item lookup list_lookup exn_bind].
  rewrite Hh, Hm. reflexivity.
Qed.

Lemma hhmm_clock hour minute :
  hour < 100 → minute < 100 →
  hhmm (clock hour minute)
  = inr (Z.of_nat hour * 100 + Z.of_nat minute)%Z.
Proof.
  intros Hh Hm.
  assert (Hh1 : hour / 10 < 10) by (apply Nat.Div0.div_lt_upper_bound; lia).
  assert (Hm1 : minute / 10 < 10) by (apply Nat.Div0.div_lt_upper_bound; lia).
  assert (Hh2 : hour mod 10 < 10) by (apply Nat.mod_upper_bound; lia).
  assert (Hm2 : minute mod 10 < 10) by (apply Nat.mod_upper_bound; lia).
  unfold clock.
  rewrite (hhmm_text _ _ _ _ (Z.of_nat (10 * (hour / 10) + hour mod 10))
             (Z.of_nat (10 * (minute / 10) + minute mod 10)));
    auto using digit_char_not_colon, int_two_digits.
  rewrite <- !Nat.div_mod_eq. reflexivity.
Qed.

(** ** The claims *)

(** C1: in the generic matching path a constraint on [leaveAt] is
    satisfied by a record iff the record's [leaveAt] time, encoded as
    [HOUR*100+MINUTE] (the code of the text ["HH:MM"]), is greater than
    or equal to the constraint's time encoded the same way; a constraint
    on [arriveBy] iff the record's time is less than or equal to the
    constraint's.  For the train store
    with the records leaving at 08:00 and at 09:30, the query with
    [("leaveAt","08:30")] returns exactly the record leaving at 09:30. *)
Theorem time_window :
  (∀ hour minute, hour < 100 → minute < 100 →
     hhmm (clock hour minute)
     = inr (Z.of_nat hour * 100 + Z.of_nat minute)%Z)
  ∧ (∀ io record val s c t,
     record !! "leaveAt" = Some (VStr s) →
     hhmm val = inr c → hhmm s = inr t →
     satisfied io record ("leaveAt", val) = true ↔ (t >= c)%Z)
  ∧ (∀ io record val s c t,
     record !! "arriveBy" = Some (VStr s) →
     hhmm val = inr c → hhmm s = inr t →
     satisfied io record ("arriveBy", val) = true ↔ (t <= c)%Z)
  ∧ (∀ dbs io g,
     record_dbs dbs !! "train" = Some [train_0800; train_0930] →
     query dbs "train" [("leaveAt", "08:30")] io g
     = (inr [train_0930], g)).
Proof.
  split; [|split; [|split]].
  - apply hhmm_clock.
  - intros io record val s c t Hr Hv Hs. unfold satisfied, constraint.
    destruct (dontcare val) eqn:Hd.
    { apply dontcare_hhmm in Hd as [e He]. congruence. }
    rewrite (compare_leaveAt io record val s c t) by done. simpl.
    case_bool_decide; split; (done || lia).
  - intros io record val s c t Hr Hv Hs. unfold satisfied, constraint.
    destruct (dontcare val) eqn:Hd.
    { apply dontcare_hhmm in Hd as [e He]. congruence. }
    rewrite (compare_arriveBy io record val s c t) by done. simpl.
    case_bool_decide; split; (done || lia).
  - intros dbs io g Hdb.
    rewrite (query_generic dbs "train" _ io g _ ltac:(discriminate) ltac:(discriminate) ltac:(discriminate) Hdb).
    reflexivity.
Qed.

(** C2, amended: for a constraint that is not a don't-care token, not a
    time field and not an ignore-open field, the test whether the record
    has the field is case-insensitive (a record none of whose field names
    equals the key case-insensitively, or equals its stem, is not
    excluded), and whenever the record has a field named exactly as the
    key is spelled, holding a string, the record satisfies the constraint
    iff the constraint value and the field's value are equal after
    trimming white space from both, compared case-sensitively. *)
Theorem default_comparison :
  (∀ io record key val,
     (∀ f, is_Some (record !! f) →
           Str.lower f ≠ Str.lower key ∧ Str.lower f ≠ stem key) →
     satisfied io record (key, val) = true)
  ∧ (∀ io record key val s,
     dontcare val = false →
     key ≠ "leaveAt" → key ≠ "arriveBy" →
     ¬ (io = true ∧ key ∈ ["destination"; "departure"]) →
     record !! key = Some (VStr s) →
     satisfied io record (key, val) = true
     ↔ Str.strip val = Str.strip s).
Proof.
  split.
  - intros io record key val Hno. apply satisfied_continue.
    assert (H1 : Str.lower key ∉ record_keys record).
    { intros [f [Hf Heq]]%elem_of_record_keys.
      destruct (Hno f Hf) as [? ?]. congruence. }
    assert (H2 : stem key ∉ record_keys record).
    { intros [f [Hf Heq]]%elem_of_record_keys.
      destruct (Hno f Hf) as [? ?]. congruence. }
    unfold compare.
    by rewrite (bool_decide_eq_true_2 _ H1), (bool_decide_eq_true_2 _ H2).
  - intros io record key val s Hd Hl Ha Hio Hr.
    unfold satisfied, constraint. rewrite Hd.
    rewrite (compare_default io record key val (VStr s)) by done. simpl.
    case_bool_decide; split; (done || tauto || by intros ?).
Qed.

(** C3: an error raised while a constraint is compared (the field is
    missing under the key of the constraint, the value of the field is
    not a string, a time is malformed, or any other exception of the
    block) makes the constraint satisfied: the record is kept or dropped
    as if the constraint were not in the list, and [query] returns a
    result, not an error. *)
Theorem errors_tolerated :
  (∀ io record key val e,
     compare io record key val = inl e →
     satisfied io record (key, val) = true)
  ∧ (∀ io record key val,
     record !! key = None → satisfied io record (key, val) = true)
  ∧ (∀ io record key val v,
     record !! key = Some v → (∀ s, v ≠ VStr s) →
     satisfied io record (key, val) = true)
  ∧ (∀ io record key val e,
     key ∈ ["leaveAt"; "arriveBy"] → hhmm val = inl e →
     satisfied io record (key, val) = true)
  ∧ (∀ io record key val s e,
     key ∈ ["leaveAt"; "arriveBy"] →
     record !! key = Some (VStr s) → hhmm s = inl e →
     satisfied io record (key, val) = true)
  ∧ (∀ io record c cs1 cs2,
     satisfied io record c = true →
     for_constraints io record (cs1 ++ c :: cs2)
     = for_constraints io record (cs1 ++ cs2))
  ∧ (∀ dbs domain cs io g records,
     domain ≠ "taxi" → domain ≠ "police" → domain ≠ "hospital" →
     record_dbs dbs !! domain = Some records →
     ∃ found, query dbs domain cs io g = (inr found, g)).
Proof.
  repeat split.
  - intros io record key val e. apply satisfied_raise.
  - intros io record key val Hr.
    destruct (compare_missing io record key val Hr) as [H|[e H]];
      eauto using satisfied_continue, satisfied_raise.
  - intros io record key val v Hr Hv.
    destruct (compare_not_str io record key val v Hr Hv) as [H|[e H]];
      eauto using satisfied_continue, satisfied_raise.
  - intros io record key val e Hk Hv.
    assert (H : compare io record key val = inr Continue
                ∨ ∃ e', compare io record key val = inl e').
    { unfold compare.
      destruct (bool_decide _ && bool_decide _); [by left|]. right.
      rewrite !elem_of_cons, elem_of_nil in Hk.
      destruct Hk as [->|[->|[]]]; simpl; rewrite Hv; simpl; eauto. }
    destruct H as [H|[e' H]];
      eauto using satisfied_continue, satisfied_raise.
  - intros io record key val s e Hk Hr Hs.
    assert (H : compare io record key val = inr Continue
                ∨ ∃ e', compare io record key val = inl e').
    { unfold compare.
      destruct (bool_decide _ && bool_decide _); [by left|]. right.
      rewrite !elem_of_cons, elem_of_nil in Hk.
      destruct Hk as [->|[->|[]]]; simpl;
        (destruct (hhmm val); simpl; [by eauto|]);
        unfold getitem; rewrite Hr; simpl; rewrite Hs; simpl; eauto. }
    destruct H as [H|[e' H]];
      eauto using satisfied_continue, satisfied_raise.
  - intros io record c cs1 cs2. apply for_constraints_skip.
  - intros dbs domain cs io g records Ht Hp Hh Hdb.
    rewrite (query_generic dbs domain cs io g records) by done. eauto.
Qed.

(** C4: for every domain and every constraint list, appending a
    constraint whose value is one of the six don't-care tokens gives the
    same result of [query] as the list without it. *)
Theorem dontcare_neutral dbs domain cs key val io g :
  val ∈ [""; "dont care"; "not mentioned"; "don't care"; "dontcare";
         "do n't care"] →
  query dbs domain (cs ++ [(key, val)]) io g = query dbs domain cs io g.
Proof.
  intros Hv%dontcare_tokens. apply query_ext. intros r.
  rewrite (for_constraints_skip io r cs (key, val) []).
  - by rewrite app_nil_r.
  - by apply satisfied_dontcare.
Qed.

(** C5: for the domains [police] and [hospital], [query] returns the
    whole stored collection of the domain, whatever the constraints and
    [ignore_open] are. *)
Theorem police_hospital_unfiltered dbs domain cs io g records :
  domain ∈ ["police"; "hospital"] →
  record_dbs dbs !! domain = Some records →
  query dbs domain cs io g = (inr records, g).
Proof.
  rewrite !elem_of_cons, elem_of_nil. intros [->|[->|[]]] Hdb;
    unfold query; simpl; unfold lift, getitem; by rewrite Hdb.
Qed.

(** C6: for the domain [taxi], whatever the constraints and [ignore_open]
    are, [query] returns exactly one record; its [taxi_colors] is an
    element of the colour options of the store, its [taxi_types] an
    element of the type options, and its [taxi_phone] a list of ten
    integers between 1 and 9; the colour and the type are the options at
    the indices that the generator draws, first for the colour, then for
    the type. *)
Theorem taxi_record dbs cs io g colors types :
  taxi_db dbs !! "taxi_colors" = Some (VList colors) → colors ≠ [] →
  taxi_db dbs !! "taxi_types" = Some (VList types) → types ≠ [] →
  ∃ color kind phone g',
    query dbs "taxi" cs io g
    = (inr [ {[ "taxi_colors" := color; "taxi_types" := kind;
                "taxi_phone" := VList (VInt <$> phone) ]} ], g')
    ∧ color ∈ colors ∧ kind ∈ types
    ∧ length phone = 10 ∧ Forall (λ d, 1 ≤ d ≤ 9)%Z phone
    ∧ colors !! (randbelow (length colors) g).1 = Some color
    ∧ types !! (randbelow (length types)
                  (randbelow (length colors) g).2).1 = Some kind.
Proof.
  intros Hc Hcne Ht Htne. unfold query.
  rewrite bool_decide_eq_true_2 by done.
  unfold rand_bind at 1. unfold lift at 1, getitem at 1. rewrite Hc.
  unfold rand_bind at 1.
  destruct (choice_list colors g Hcne) as [color [-> Hcolor]].
  set (g1 := (randbelow (length colors) g).2).
  unfold rand_bind at 1. unfold lift at 1, getitem at 1. rewrite Ht.
  unfold rand_bind at 1.
  destruct (choice_list types g1 Htne) as [kind [-> Hkind]].
  set (g2 := (randbelow (length types) g1).2).
  unfold rand_bind at 1.
  destruct (repeat_randint 10 1 9 g2 ltac:(lia))
    as [phone [g' [-> [Hlen Hall]]]].
  exists color, kind, phone, g'. unfold rand_ret.
  repeat split; eauto using list_elem_of_lookup_2.
Qed.

(** C8: for a domain other than [taxi], [police] and [hospital], the
    list that [query] returns is a subsequence of the stored collection
    of the domain, in the order of the store: the records that satisfy
    every constraint, each as often as the store has it, and every one an
    element of the store; when no record matches, the result is the empty
    list, not an error. *)
Theorem result_is_subsequence dbs domain cs io g records :
  domain ≠ "taxi" → domain ≠ "police" → domain ≠ "hospital" →
  record_dbs dbs !! domain = Some records →
  ∃ found,
    query dbs domain cs io g = (inr found, g)
    ∧ found = filter (λ r, forallb (satisfied io r) cs = true) records
    ∧ sublist found records
    ∧ (∀ r, r ∈ found → r ∈ records)
    ∧ ((∀ r, r ∈ records → forallb (satisfied io r) cs = false) →
       found = []).
Proof.
  intros Ht Hp Hh Hdb.
  exists (filter (λ r, forallb (satisfied io r) cs = true) records).
  split; [|split; [done|split; [|split]]].
  - rewrite (query_generic dbs domain cs io g records) by done.
    f_equal. f_equal. apply list_filter_iff. intros r.
    by rewrite for_constraints_forallb.
  - apply sublist_filter.
  - intros r Hr. by apply list_elem_of_filter in Hr as [_ ?].
  - intros Hnone.
    destruct (filter _ records) as [|r rest] eqn:E; [done|].
    assert (Hr : r ∈ filter (λ r, forallb (satisfied io r) cs = true)
                   records) by (rewrite E; left).
    apply list_elem_of_filter in Hr as [Hsat Hin].
    rewrite (Hnone r Hin) in Hsat. done.
Qed.

(** C9: for a domain other than [taxi], [police] and [hospital], [query]
    with the empty constraint list returns the whole stored collection of
    the domain, unchanged and in its order. *)
Theorem empty_constraints dbs domain io g records :
  domain ≠ "taxi" → domain ≠ "police" → domain ≠ "hospital" →
  record_dbs dbs !! domain = Some records →
  query dbs domain [] io g = (inr records, g).
Proof.
  intros Ht Hp Hh Hdb. unfold query.
  rewrite !bool_decide_eq_false_2 by done.
  unfold rand_bind, lift, getitem, rand_ret. rewrite Hdb.
  by rewrite for_records_nil.
Qed.

(** C7: with [ignore_open] true, a constraint on [destination] or on
    [departure] excludes no record, whatever its value is; with
    [ignore_open] false, the same constraint is decided by the default
    string comparison with the field of the record: equality after
    trimming both sides, case-sensitive. *)
Theorem ignore_open_fields :
  (∀ record key val,
     key ∈ ["destination"; "departure"] →
     satisfied true record (key, val) = true)
  ∧ (∀ record key val cs1 cs2,
     key ∈ ["destination"; "departure"] →
     for_constraints true record (cs1 ++ (key, val) :: cs2)
     = for_constraints true record (cs1 ++ cs2))
  ∧ (∀ record key val s,
     key ∈ ["destination"; "departure"] →
     dontcare val = false →
     record !! key = Some (VStr s) →
     satisfied false record (key, val) = true
     ↔ Str.strip val = Str.strip s).
Proof.
  assert (H1 : ∀ record key val,
             key ∈ ["destination"; "departure"] →
             satisfied true record (key, val) = true).
  { intros record key val Hk.
    unfold satisfied, constraint. destruct (dontcare val); [done|].
    unfold compare. destruct (bool_decide _ && bool_decide _); [done|].
    rewrite (bool_decide_eq_true_2 (key ∈ _)) by done.
    rewrite !elem_of_cons, elem_of_nil in Hk.
    by destruct Hk as [->|[->|[]]]. }
  split; [done|split].
  - intros record key val cs1 cs2 Hk.
    apply for_constraints_skip. by apply H1.
  - intros record key val s Hk Hd Hr.
    unfold satisfied, constraint. rewrite Hd.
    rewrite (compare_default false record key val (VStr s)); try done.
    + simpl. case_bool_decide; split; (done || tauto || by intros ?).
    + rewrite !elem_of_cons, elem_of_nil in Hk.
      by destruct Hk as [->|[->|[]]].
    + rewrite !elem_of_cons, elem_of_nil in Hk.
      by destruct Hk as [->|[->|[]]].
    + by intros [? _].
Qed.

(** C10: the time comparison is made only for a key that is exactly
    [leaveAt] or [arriveBy]: any other key goes to the ignore-open test
    and the default comparison.  For a record whose only field spelled
    like [leaveAt] (or [arriveBy]) up to the case of its letters is that
    field itself, a constraint whose key is another case variant, such as
    [leaveat], passes the test of the field names, the comparison then
    looks the value up under the key of the constraint, the lookup fails
    with [KeyError], and the constraint is satisfied whatever the times
    are. *)
Theorem time_keys_exact :
  (∀ io record key val,
     key ≠ "leaveAt" → key ≠ "arriveBy" →
     compare io record key val
     = if bool_decide (Str.lower key ∉ record_keys record)
          && bool_decide (stem key ∉ record_keys record)
       then inr Continue
       else if io && bool_decide (key ∈ ["destination"; "departure"])
       then inr Continue
       else exn_bind (exn_bind (getitem record key) str_method)
              (λ field, inr (if bool_decide
                                  (Str.strip val ≠ Str.strip field)
                             then Break else Pass)))
  ∧ (∀ io record field key val,
     field ∈ ["leaveAt"; "arriveBy"] →
     is_Some (record !! field) →
     (∀ f, is_Some (record !! f) →
           Str.lower f = Str.lower field → f = field) →
     key ≠ field → Str.lower key = Str.lower field →
     Str.lower key ∈ record_keys record
     ∧ (dontcare val = false → compare io record key val = inl KeyError)
     ∧ satisfied io record (key, val) = true).
Proof.
  split.
  - intros io record key val Hl Ha. unfold compare.
    by rewrite (bool_decide_eq_false_2 (key = "leaveAt")),
               (bool_decide_eq_false_2 (key = "arriveBy")).
  - intros io record field key val Hf [v Hv] Honly Hne Hlow.
    assert (Hin : Str.lower key ∈ record_keys record).
    { rewrite Hlow. by apply (lower_in_record_keys record field v). }
    assert (Hnone : record !! key = None).
    { destruct (record !! key) as [w|] eqn:E; [|done].
      destruct Hne. apply Honly; [by eauto|done]. }
    assert (Hc : compare io record key val = inl KeyError).
    { unfold compare.
      rewrite (bool_decide_eq_false_2 (Str.lower key ∉ _)) by tauto.
      rewrite !elem_of_cons, elem_of_nil in Hf.
      assert (Hl : key ≠ "leaveAt").
      { intros ->. by destruct Hf as [->|[->|[]]]. }
      assert (Ha : key ≠ "arriveBy").
      { intros ->. by destruct Hf as [->|[->|[]]]. }
      assert (Hd : key ∉ ["destination"; "departure"]).
      { rewrite !elem_of_cons, elem_of_nil.
        intros [->|[->|[]]]; by destruct Hf as [->|[->|[]]]. }
      rewrite (bool_decide_eq_false_2 (key = "leaveAt")),
              (bool_decide_eq_false_2 (key = "arriveBy")),
              (bool_decide_eq_false_2 (key ∈ _)) by done.
      rewrite andb_false_r. simpl.
      unfold getitem. by rewrite Hnone. }
    split; [done|split; [done|]].
    by apply (satisfied_raise io record key val KeyError).
Qed.

End Query.


(** ** The claims at concrete inputs *)

Lemma tape_randbelow_lt (n : nat) (g : list nat) :
  0 < n → (tape_randbelow n g).1 < n.
Proof.
  intros Hn. destruct g as [|x g']; simpl; [done|].
  apply Nat.mod_upper_bound. lia.
Qed.

Lemma train_0800_fields (f : string) :
  is_Some (train_0800 !! f) → f = "leaveAt" ∨ f = "destination".
Proof.
  unfold train_0800. intros [v Hv].
  apply lookup_insert_Some in Hv as [[<- _]|[_ Hv]]; [by left|].
  apply lookup_singleton_Some in Hv as [<- _]. by right.
Qed.

(** The train of 09:30 leaves after 08:30; a train that arrives at 08:45
    arrives before 09:00. *)
Lemma time_window_witness :
  (train_0930 !! "leaveAt" = Some (VStr "09:30")
   ∧ hhmm "08:30" = inr 830%Z ∧ hhmm "09:30" = inr 930%Z
   ∧ (satisfied stem_lower true train_0930 ("leaveAt", "08:30") = true
      ↔ (930 >= 830)%Z))
  ∧ (({[ "arriveBy" := VStr "08:45" ]} : gmap string value) !! "arriveBy"
     = Some (VStr "08:45")
     ∧ hhmm "09:00" = inr 900%Z ∧ hhmm "08:45" = inr 845%Z
     ∧ (satisfied stem_lower true {[ "arriveBy" := VStr "08:45" ]}
          ("arriveBy", "09:00") = true
        ↔ (845 <= 900)%Z))
  ∧ (7 < 100 ∧ 5 < 100 ∧ hhmm (clock 7 5) = inr (7 * 100 + 5)%Z)
  ∧ (record_dbs fixture !! "train" = Some [train_0800; train_0930]
     ∧ query stem_lower (list nat) tape_randbelow fixture "train"
         [("leaveAt", "08:30")] true []
       = (inr [train_0930], [])).
Proof.
  destruct (time_window stem_lower (list nat) tape_randbelow)
    as [Hclock [Hleave [Harrive Hquery]]].
  split; [|split; [|split]].
  - split; [reflexivity|split; [reflexivity|split; [reflexivity|]]].
    apply (Hleave true train_0930 "08:30" "09:30"); reflexivity.
  - split; [reflexivity|split; [reflexivity|split; [reflexivity|]]].
    apply (Harrive true _ "09:00" "08:45"); reflexivity.
  - split; [lia|split; [lia|]]. apply (Hclock 7 5); lia.
  - split; [reflexivity|]. apply Hquery. reflexivity.
Defined.

(** The claim C2 as the specification states it, with the field found
    case-insensitively, fails on the record [{"Area": "centre"}] and the
    constraint [("area", "north")]: the test of the field names passes,
    [record["area"]] raises [KeyError], and the record is kept although
    ["north"] differs from ["centre"]. *)
Lemma default_comparison_counterexample :
  ¬ (∀ (stem : string → string) (io : bool) (record : gmap string value)
       (key val f s : string),
       dontcare val = false →
       key ≠ "leaveAt" → key ≠ "arriveBy" →
       ¬ (io = true ∧ key ∈ ["destination"; "departure"]) →
       record !! f = Some (VStr s) → Str.lower f = Str.lower key →
       satisfied stem io record (key, val) = true
       ↔ Str.strip val = Str.strip s).
Proof.
  intros H.
  destruct (H stem_lower false {[ "Area" := VStr "centre" ]}
              "area" "north" "Area" "centre") as [Hkept _];
    try done.
  - by intros [? _].
  - specialize (Hkept eq_refl). discriminate Hkept.
Qed.

(** The same input through [query]: the restaurant in the [Area]
    [centre] is returned for the constraint [("area", "north")]. *)
Example query_area_case_variant :
  query stem_lower (list nat) tape_randbelow fixture "restaurant"
    [("area", "north")] false []
  = (inr [ {[ "Area" := VStr "centre"; "name" := VStr "pizza hut" ]} ], []).
Proof. reflexivity. Qed.

(** A train has no [pricerange]; the [destination] of the train of 08:00
    is [cambridge] up to white space. *)
Lemma default_comparison_witness :
  satisfied stem_lower false train_0800 ("pricerange", "cheap") = true
  ∧ (dontcare " cambridge" = false
     ∧ train_0800 !! "destination" = Some (VStr "cambridge")
     ∧ (satisfied stem_lower false train_0800 ("destination", " cambridge")
        = true
        ↔ Str.strip " cambridge" = Str.strip "cambridge")).
Proof.
  destruct (default_comparison stem_lower) as [Habsent Hexact].
  split.
  - apply Habsent. intros f Hf.
    destruct (train_0800_fields f Hf) as [-> | ->]; split; discriminate.
  - split; [reflexivity|split; [reflexivity|]].
    apply Hexact; try reflexivity; try discriminate.
    intros [Hio _]. discriminate Hio.
Defined.

(** A time without a colon, a [leaveAt] that is a number, and a field the
    record does not have. *)
Lemma errors_tolerated_witness :
  (compare stem_lower true train_0800 "leaveAt" "0830" = inl IndexError
   ∧ satisfied stem_lower true train_0800 ("leaveAt", "0830") = true)
  ∧ (({[ "leaveAt" := VInt 800 ]} : gmap string value) !! "leaveAt"
     = Some (VInt 800)
     ∧ satisfied stem_lower true {[ "leaveAt" := VInt 800 ]}
         ("leaveAt", "08:30") = true)
  ∧ (train_0800 !! "Destination" = None
     ∧ satisfied stem_lower false train_0800 ("Destination", "ely") = true)
  ∧ (hhmm "8h30" = inl ValueError
     ∧ satisfied stem_lower false train_0800 ("leaveAt", "8h30") = true)
  ∧ (({[ "arriveBy" := VStr "9:xx" ]} : gmap string value) !! "arriveBy"
     = Some (VStr "9:xx")
     ∧ hhmm "9:xx" = inl ValueError
     ∧ satisfied stem_lower false {[ "arriveBy" := VStr "9:xx" ]}
         ("arriveBy", "08:30") = true)
  ∧ (for_constraints stem_lower true train_0800
       ([("destination", "cambridge")] ++ ("leaveAt", "0830") :: [])
     = for_constraints stem_lower true train_0800
         ([("destination", "cambridge")] ++ []))
  ∧ (∃ found,
       query stem_lower (list nat) tape_randbelow fixture "train"
         [("leaveAt", "0830")] true [] = (inr found, [])).
Proof.
  destruct (errors_tolerated stem_lower (list nat) tape_randbelow)
    as [Hraise [Hmissing [Htype [Hval [Hfield [Hskip Hquery]]]]]].
  split; [|split; [|split; [|split; [|split; [|split]]]]].
  - split; [reflexivity|].
    apply (Hraise true train_0800 "leaveAt" "0830" IndexError). reflexivity.
  - split; [reflexivity|].
    apply (Htype true _ "leaveAt" "08:30" (VInt 800)); [reflexivity|].
    intros s Hs. discriminate Hs.
  - split; [reflexivity|]. apply Hmissing. reflexivity.
  - split; [reflexivity|].
    apply (Hval false train_0800 "leaveAt" "8h30" ValueError);
      [|reflexivity].
    apply list_elem_of_here.
  - split; [reflexivity|split; [reflexivity|]].
    apply (Hfield false _ "arriveBy" "08:30" "9:xx" ValueError);
      [|reflexivity|reflexivity].
    apply list_elem_of_further, list_elem_of_here.
  - apply Hskip.
    apply (Hraise true train_0800 "leaveAt" "0830" IndexError). reflexivity.
  - apply (Hquery fixture "train" [("leaveAt", "0830")] true []
             [train_0800; train_0930]);
      try discriminate. reflexivity.
Defined.

(** A [destination] of [dontcare] appended to the query for trains. *)
Lemma dontcare_neutral_witness :
  "dontcare" ∈ [""; "dont care"; "not mentioned"; "don't care"; "dontcare";
                "do n't care"]
  ∧ query stem_lower (list nat) tape_randbelow fixture "train"
      ([("leaveAt", "08:30")] ++ [("destination", "dontcare")]) false []
    = query stem_lower (list nat) tape_randbelow fixture "train"
        [("leaveAt", "08:30")] false [].
Proof.
  assert (Hin : "dontcare" ∈ [""; "dont care"; "not mentioned";
                              "don't care"; "dontcare"; "do n't care"]).
  { do 4 apply list_elem_of_further. apply list_elem_of_here. }
  split; [exact Hin|].
  apply (dontcare_neutral stem_lower (list nat) tape_randbelow fixture
           "train" [("leaveAt", "08:30")] "destination" "dontcare" false []).
  exact Hin.
Defined.

(** The hospital departments, asked for with a constraint that none of
    them meets. *)
Lemma police_hospital_unfiltered_witness :
  "hospital" ∈ ["police"; "hospital"]
  ∧ record_dbs fixture !! "hospital"
    = Some [ {[ "department" := VStr "neurology" ]};
             {[ "department" := VStr "oncology" ]} ]
  ∧ query stem_lower (list nat) tape_randbelow fixture "hospital"
      [("department", "cardiology")] false []
    = (inr [ {[ "department" := VStr "neurology" ]};
             {[ "department" := VStr "oncology" ]} ], []).
Proof.
  assert (Hin : "hospital" ∈ ["police"; "hospital"]).
  { apply list_elem_of_further, list_elem_of_here. }
  split; [exact Hin|]. split; [reflexivity|].
  apply (police_hospital_unfiltered stem_lower (list nat) tape_randbelow
           fixture "hospital"); [exact Hin|reflexivity].
Defined.

(** A taxi drawn from the tape 4, 3, 0, 1, ..., 9. *)
Lemma taxi_record_witness :
  taxi_db fixture !! "taxi_colors"
  = Some (VList [VStr "black"; VStr "white"; VStr "red"])
  ∧ taxi_db fixture !! "taxi_types"
    = Some (VList [VStr "toyota"; VStr "skoda"])
  ∧ ∃ color kind phone g',
      query stem_lower (list nat) tape_randbelow fixture "taxi"
        [("leaveAt", "08:30")] true [4; 3; 0; 1; 2; 3; 4; 5; 6; 7; 8; 9]
      = (inr [ {[ "taxi_colors" := color; "taxi_types" := kind;
                  "taxi_phone" := VList (VInt <$> phone) ]} ], g')
      ∧ color ∈ [VStr "black"; VStr "white"; VStr "red"]
      ∧ kind ∈ [VStr "toyota"; VStr "skoda"]
      ∧ length phone = 10 ∧ Forall (λ d, 1 ≤ d ≤ 9)%Z phone
      ∧ [VStr "black"; VStr "white"; VStr "red"]
          !! (tape_randbelow 3 [4; 3; 0; 1; 2; 3; 4; 5; 6; 7; 8; 9]).1
        = Some color
      ∧ [VStr "toyota"; VStr "skoda"]
          !! (tape_randbelow 2
                (tape_randbelow 3
                   [4; 3; 0; 1; 2; 3; 4; 5; 6; 7; 8; 9]).2).1
        = Some kind.
Proof.
  split; [reflexivity|split; [reflexivity|]].
  apply (taxi_record stem_lower (list nat) tape_randbelow tape_randbelow_lt
           fixture [("leaveAt", "08:30")] true
           [4; 3; 0; 1; 2; 3; 4; 5; 6; 7; 8; 9]
           [VStr "black"; VStr "white"; VStr "red"]
           [VStr "toyota"; VStr "skoda"]);
    (reflexivity || discriminate).
Defined.

(** The same call, evaluated: the colour at index 4 mod 3, the type at
    index 3 mod 2, and the digits 1 + (x mod 9) of the rest of the tape. *)
Example query_taxi_tape :
  query stem_lower (list nat) tape_randbelow fixture "taxi"
    [("leaveAt", "08:30")] true [4; 3; 0; 1; 2; 3; 4; 5; 6; 7; 8; 9]
  = (inr [ {[ "taxi_colors" := VStr "white"; "taxi_types" := VStr "skoda";
              "taxi_phone" :=
                VList (VInt <$> [1; 2; 3; 4; 5; 6; 7; 8; 9; 1]%Z) ]} ], []).
Proof. reflexivity. Qed.

(** The trains to [cambridge], with [ignore_open] false. *)
Lemma result_is_subsequence_witness :
  record_dbs fixture !! "train" = Some [train_0800; train_0930]
  ∧ ∃ found,
      query stem_lower (list nat) tape_randbelow fixture "train"
        [("leaveAt", "08:30"); ("destination", "cambridge")] false []
      = (inr found, [])
      ∧ found
        = filter (λ r, forallb (satisfied stem_lower false r)
                         [("leaveAt", "08:30"); ("destination", "cambridge")]
                       = true)
            [train_0800; train_0930]
      ∧ sublist found [train_0800; train_0930]
      ∧ (∀ r, r ∈ found → r ∈ [train_0800; train_0930])
      ∧ ((∀ r, r ∈ [train_0800; train_0930] →
               forallb (satisfied stem_lower false r)
                 [("leaveAt", "08:30"); ("destination", "cambridge")]
               = false) →
         found = []).
Proof.
  split; [reflexivity|].
  apply (result_is_subsequence stem_lower (list nat) tape_randbelow fixture
           "train"); (reflexivity || discriminate).
Defined.

Lemma empty_constraints_witness :
  record_dbs fixture !! "train" = Some [train_0800; train_0930]
  ∧ query stem_lower (list nat) tape_randbelow fixture "train" [] true []
    = (inr [train_0800; train_0930], []).
Proof.
  split; [reflexivity|].
  apply (empty_constraints stem_lower (list nat) tape_randbelow fixture
           "train"); (reflexivity || discriminate).
Defined.

(** A [destination] of [ely] for the train to [cambridge]. *)
Lemma ignore_open_fields_witness :
  "destination" ∈ ["destination"; "departure"]
  ∧ satisfied stem_lower true train_0800 ("destination", "ely") = true
  ∧ for_constraints stem_lower true train_0800
      ([("leaveAt", "07:00")] ++ ("destination", "ely") :: [])
    = for_constraints stem_lower true train_0800 ([("leaveAt", "07:00")] ++ [])
  ∧ dontcare "ely" = false
  ∧ train_0800 !! "destination" = Some (VStr "cambridge")
  ∧ (satisfied stem_lower false train_0800 ("destination", "ely") = true
     ↔ Str.strip "ely" = Str.strip "cambridge").
Proof.
  assert (Hin : "destination" ∈ ["destination"; "departure"]).
  { apply list_elem_of_here. }
  destruct (ignore_open_fields stem_lower) as [Hopen [Hskip Hclosed]].
  split; [exact Hin|]. split; [apply Hopen; exact Hin|].
  split; [apply Hskip; exact Hin|].
  split; [reflexivity|]. split; [reflexivity|].
  apply Hclosed; [exact Hin|reflexivity|reflexivity].
Defined.

(** The key [leaveat] against the train of 08:00, for the time 23:59. *)
Lemma time_keys_exact_witness :
  "leaveAt" ∈ ["leaveAt"; "arriveBy"]
  ∧ is_Some (train_0800 !! "leaveAt")
  ∧ "leaveat" ≠ "leaveAt" ∧ Str.lower "leaveat" = Str.lower "leaveAt"
  ∧ Str.lower "leaveat" ∈ record_keys train_0800
  ∧ (dontcare "23:59" = false →
     compare stem_lower true train_0800 "leaveat" "23:59" = inl KeyError)
  ∧ satisfied stem_lower true train_0800 ("leaveat", "23:59") = true.
Proof.
  assert (Hin : "leaveAt" ∈ ["leaveAt"; "arriveBy"]).
  { apply list_elem_of_here. }
  assert (Hsome : is_Some (train_0800 !! "leaveAt")).
  { exists (VStr "08:00"). reflexivity. }
  split; [exact Hin|]. split; [exact Hsome|].
  split; [discriminate|]. split; [reflexivity|].
  destruct (time_keys_exact stem_lower) as [_ Hvariant].
  apply (Hvariant true train_0800 "leaveAt" "leaveat" "23:59");
    [exact Hin|exact Hsome| |discriminate|reflexivity].
  intros f Hf Hlow.
  destruct (train_0800_fields f Hf) as [-> | ->];
    [reflexivity|discriminate Hlow].
Defined.

(** ** Further properties of [query] *)

Lemma forallb_Permutation {A} (f : A → bool) (l l' : list A) :
  l ≡ₚ l' → forallb f l = forallb f l'.
Proof.
  induction 1 as [|x l l' _ IH|x y l|l l' l'' _ IH1 _ IH2]; simpl.
  - done.
  - by rewrite IH.
  - destruct (f x), (f y); done.
  - by rewrite IH1.
Qed.

Lemma satisfied_missing stem io record key val :
  record !! key = None → satisfied stem io record (key, val) = true.
Proof.
  intros Hr.
  destruct (compare_missing stem io record key val Hr) as [H|[e H]];
    eauto using satisfied_continue, satisfied_raise.
Qed.

(** Outside the ignore-open test the two values of [ignore_open] give the
    same block. *)
Lemma compare_ignore_open stem record key val :
  key ∉ ["destination"; "departure"] →
  compare stem false record key val = compare stem true record key val.
Proof.
  intros Hk. unfold compare.
  by rewrite (bool_decide_eq_false_2 (key ∈ _)) by done.
Qed.

Lemma satisfied_open stem record c :
  satisfied stem false record c = true → satisfied stem true record c = true.
Proof.
  destruct c as [key val].
  destruct (decide (key ∈ ["destination"; "departure"])) as [Hk|Hk].
  - intros _. unfold satisfied, constraint. destruct (dontcare val); [done|].
    unfold compare. destruct (bool_decide _ && bool_decide _); [done|].
    rewrite (bool_decide_eq_true_2 (key ∈ _)) by done.
    rewrite !elem_of_cons, elem_of_nil in Hk.
    by destruct Hk as [->|[->|[]]].
  - unfold satisfied, constraint.
    by rewrite (compare_ignore_open stem record key val Hk).
Qed.

Lemma satisfied_stem stem stem' io record c :
  satisfied stem io record c = satisfied stem' io record c.
Proof.
  destruct c as [key val].
  destruct (decide (Str.lower key ∈ record_keys record)) as [Hin|Hnin].
  - unfold satisfied, constraint, compare.
    by rewrite (bool_decide_eq_false_2 (Str.lower key ∉ _)) by tauto.
  - assert (Hr : record !! key = None).
    { destruct (record !! key) as [v|] eqn:E; [|done].
      destruct Hnin. by apply (lower_in_record_keys record key v). }
    by rewrite !satisfied_missing.
Qed.

Lemma query_result_store stem rng randbelow dbs domain cs io g
    (found : list (gmap string value)) g' :
  domain ≠ "taxi" → domain ≠ "police" → domain ≠ "hospital" →
  query stem rng randbelow dbs domain cs io g = (inr found, g') →
  ∃ records, record_dbs dbs !! domain = Some records.
Proof.
  intros Ht Hp Hh Hq.
  destruct (record_dbs dbs !! domain) as [records|] eqn:E; [by eauto|].
  by rewrite (query_unknown stem rng randbelow dbs domain cs io g) in Hq.
Qed.

Lemma forallb_ext_elem {A} (f f' : A → bool) (l : list A) :
  (∀ x, x ∈ l → f x = f' x) → forallb f l = forallb f' l.
Proof.
  induction l as [|x l IH]; intros H; simpl; [done|].
  rewrite (H x) by left. rewrite IH; [done|].
  intros y Hy. apply H. by right.
Qed.

Section QueryProperties.

Variable stem : string → string.
Variable rng : Type.
Variable randbelow : nat → rng → nat * rng.
Hypothesis randbelow_lt : ∀ n g, 0 < n → (randbelow n g).1 < n.

(** X1: for every domain other than [taxi], [query] draws no random
    number (the generator state comes back unchanged), and it raises,
    always with [KeyError], exactly when the store has no collection
    for the domain: an unknown domain is not an empty result. *)
Theorem query_missing_collection dbs domain cs io g :
  domain ≠ "taxi" →
  (query stem rng randbelow dbs domain cs io g).2 = g
  ∧ ((query stem rng randbelow dbs domain cs io g).1 = inl KeyError
     ↔ record_dbs dbs !! domain = None)
  ∧ (∀ e, (query stem rng randbelow dbs domain cs io g).1 = inl e →
          e = KeyError).
Proof.
  intros Ht. unfold query. rewrite (bool_decide_eq_false_2 _ Ht).
  assert (Hget : ∀ d : string,
             (getitem (record_dbs dbs) d = inl KeyError
              ↔ record_dbs dbs !! d = None)
             ∧ (∀ e, getitem (record_dbs dbs) d = inl e → e = KeyError)).
  { intros d. unfold getitem. destruct (record_dbs dbs !! d); split;
      try (split; congruence); congruence. }
  case_bool_decide as Hp; [subst domain; apply (conj eq_refl), Hget|].
  case_bool_decide as Hh; [subst domain; apply (conj eq_refl), Hget|].
  unfold rand_bind, lift, rand_ret.
  destruct (Hget domain) as [Hnone Hkey].
  destruct (getitem (record_dbs dbs) domain) as [e|records] eqn:E; simpl.
  - split; [done|]. split; [exact Hnone|exact Hkey].
  - split; [done|]. split; [|congruence].
    split; [congruence|]. intros Hn. apply Hnone in Hn. congruence.
Qed.

(** X2: the taxi branch raises when the store does not give it options
    to choose from: [KeyError] when [taxi_colors] is missing,
    [IndexError] when it is the empty list (both before any draw), and
    [KeyError] when the colour is chosen but [taxi_types] is missing. *)
Theorem taxi_missing_options dbs cs io g :
  (taxi_db dbs !! "taxi_colors" = None →
   query stem rng randbelow dbs "taxi" cs io g = (inl KeyError, g))
  ∧ (taxi_db dbs !! "taxi_colors" = Some (VList []) →
     query stem rng randbelow dbs "taxi" cs io g = (inl IndexError, g))
  ∧ (∀ colors,
       taxi_db dbs !! "taxi_colors" = Some (VList colors) → colors ≠ [] →
       taxi_db dbs !! "taxi_types" = None →
       (query stem rng randbelow dbs "taxi" cs io g).1 = inl KeyError).
Proof.
  unfold query. rewrite bool_decide_eq_true_2 by done.
  split; [|split].
  - intros Hc. unfold rand_bind at 1. unfold lift at 1, getitem at 1.
    by rewrite Hc.
  - intros Hc. unfold rand_bind at 1. unfold lift at 1, getitem at 1.
    rewrite Hc. by unfold rand_bind at 1.
  - intros colors Hc Hne Ht.
    unfold rand_bind at 1. unfold lift at 1, getitem at 1. rewrite Hc.
    unfold rand_bind at 1.
    destruct (choice_list rng randbelow randbelow_lt colors g Hne)
      as [color [-> _]].
    unfold rand_bind at 1. unfold lift at 1, getitem at 1. by rewrite Ht.
Qed.

(** X3: the constraints are a conjunction: [query] gives the same result
    for any two orderings of the same constraints. *)
Theorem constraints_order_irrelevant dbs domain cs cs' io g :
  cs ≡ₚ cs' →
  query stem rng randbelow dbs domain cs io g
  = query stem rng randbelow dbs domain cs' io g.
Proof.
  intros Hp. apply query_ext. intros r.
  rewrite !for_constraints_forallb. by apply forallb_Permutation.
Qed.

(** X4: for a domain other than [taxi], [police] and [hospital], the
    query with the constraints [cs1 ++ cs2] returns the records of the
    query with [cs1] that also satisfy [cs2]: more constraints can only
    take records away. *)
Theorem constraints_compose dbs domain cs1 cs2 io g found :
  domain ≠ "taxi" → domain ≠ "police" → domain ≠ "hospital" →
  query stem rng randbelow dbs domain cs1 io g = (inr found, g) →
  ∃ found',
    query stem rng randbelow dbs domain (cs1 ++ cs2) io g = (inr found', g)
    ∧ found' = filter (λ r, forallb (satisfied stem io r) cs2 = true) found
    ∧ sublist found' found.
Proof.
  intros Ht Hp Hh Hq.
  destruct (query_result_store _ _ _ _ _ _ _ _ _ _ Ht Hp Hh Hq)
    as [records Hdb].
  rewrite (query_generic stem rng randbelow dbs domain cs1 io g records)
    in Hq by done.
  injection Hq as <-.
  eexists. split; [|split; [reflexivity|apply sublist_filter]].
  rewrite (query_generic stem rng randbelow dbs domain (cs1 ++ cs2) io g
             records) by done.
  f_equal. f_equal. rewrite list_filter_filter. apply list_filter_iff.
  intros r. rewrite for_constraints_app, <- !for_constraints_forallb.
  rewrite andb_true_iff. tauto.
Qed.

(** X5: [ignore_open] only relaxes: a constraint satisfied with
    [ignore_open] false is satisfied with [ignore_open] true, so for a
    domain other than [taxi], [police] and [hospital] the result with
    false is a sublist of the result with true; and when no constraint
    is on [destination] or [departure], the flag changes nothing. *)
Theorem ignore_open_monotone dbs domain cs g :
  (∀ found,
     domain ≠ "taxi" → domain ≠ "police" → domain ≠ "hospital" →
     query stem rng randbelow dbs domain cs false g = (inr found, g) →
     ∃ found',
       query stem rng randbelow dbs domain cs true g = (inr found', g)
       ∧ found
         = filter (λ r, forallb (satisfied stem false r) cs = true) found'
       ∧ sublist found found')
  ∧ ((∀ c, c ∈ cs → c.1 ∉ ["destination"; "departure"]) →
     query stem rng randbelow dbs domain cs false g
     = query stem rng randbelow dbs domain cs true g).
Proof.
  split.
  - intros found Ht Hp Hh Hq.
    destruct (query_result_store _ _ _ _ _ _ _ _ _ _ Ht Hp Hh Hq)
      as [records Hdb].
    rewrite (query_generic stem rng randbelow dbs domain cs false g records)
      in Hq by done.
    injection Hq as <-.
    rewrite (query_generic stem rng randbelow dbs domain cs true g records)
      by done.
    eexists. split; [reflexivity|].
    assert (Heq : filter (λ r, for_constraints stem false r cs = true) records
                  = filter (λ r, forallb (satisfied stem false r) cs = true)
                      (filter (λ r, for_constraints stem true r cs = true)
                         records)).
    { rewrite list_filter_filter. apply list_filter_iff. intros r.
      rewrite !for_constraints_forallb. split; [|tauto].
      intros Hf. split; [done|].
      apply forallb_forall. intros c Hc.
      apply satisfied_open.
      eapply forallb_forall in Hf; [exact Hf|exact Hc]. }
    split; [exact Heq|]. rewrite Heq. apply sublist_filter.
  - intros Hkeys. unfold query. repeat case_bool_decide; try done.
    unfold rand_bind, lift. destruct (getitem _ _); [done|].
    unfold rand_ret. f_equal. f_equal. apply for_records_ext. intros r.
    rewrite !for_constraints_forallb.
    apply forallb_ext_elem. intros [key val] Hc.
    unfold satisfied, constraint.
    rewrite (compare_ignore_open stem r key val); [done|].
    apply (Hkeys (key, val) Hc).
Qed.

End QueryProperties.

(** X6: the stemmer has no effect on the result of [query]: whenever the
    stem of a key is needed to pass the test of the field names, the
    record has no field spelled as the key, the lookup of the value
    fails, and the constraint is satisfied as it is when the test does
    not pass. *)
Theorem stemmer_irrelevant (stem stem' : string → string) (rng : Type)
    (randbelow : nat → rng → nat * rng) dbs domain cs io g :
  query stem rng randbelow dbs domain cs io g
  = query stem' rng randbelow dbs domain cs io g.
Proof.
  unfold query. repeat case_bool_decide; try done.
  unfold rand_bind, lift. destruct (getitem _ _); [done|].
  unfold rand_ret. f_equal. f_equal.
  rewrite !for_records_filter. f_equal. apply list_filter_iff. intros r.
  rewrite !for_constraints_forallb.
  rewrite (forallb_ext_elem (satisfied stem io r) (satisfied stem' io r));
    [done|].
  intros c _. apply satisfied_stem.
Qed.

(** X7: for clock times written ["HH:MM"] with minutes below 60, the
    comparison of the codes [HOUR*100+MINUTE] is the comparison of the
    times of day: a [leaveAt] constraint is satisfied iff the record
    leaves at or after the time asked for, an [arriveBy] constraint iff
    the record arrives at or before it, counted in minutes. *)
Theorem clock_order (stem : string → string) io
    (record : gmap string value) hour minute hour' minute' :
  hour < 100 → minute < 60 → hour' < 100 → minute' < 60 →
  (record !! "leaveAt" = Some (VStr (clock hour' minute')) →
   satisfied stem io record ("leaveAt", clock hour minute) = true
   ↔ hour * 60 + minute ≤ hour' * 60 + minute')
  ∧ (record !! "arriveBy" = Some (VStr (clock hour' minute')) →
     satisfied stem io record ("arriveBy", clock hour minute) = true
     ↔ hour' * 60 + minute' ≤ hour * 60 + minute).
Proof.
  intros Hh Hm Hh' Hm'.
  assert (Hc : hhmm (clock hour minute)
               = inr (Z.of_nat hour * 100 + Z.of_nat minute)%Z)
    by (apply hhmm_clock; lia).
  assert (Hc' : hhmm (clock hour' minute')
                = inr (Z.of_nat hour' * 100 + Z.of_nat minute')%Z)
    by (apply hhmm_clock; lia).
  assert (Hd : dontcare (clock hour minute) = false).
  { destruct (dontcare (clock hour minute)) eqn:E; [|done].
    apply (dontcare_hhmm stem) in E as [e He]. congruence. }
  split; intros Hr; unfold satisfied, constraint; rewrite Hd.
  - rewrite (compare_leaveAt stem io record _ _ _ _ Hr Hc Hc'). simpl.
    case_bool_decide; split; (done || lia).
  - rewrite (compare_arriveBy stem io record _ _ _ _ Hr Hc Hc'). simpl.
    case_bool_decide; split; (done || lia).
Qed.

(** ** Properties of the helpers of [util.py] *)

Lemma append_cons (a : ascii) (s t : string) :
  String a s +:+ t = String a (s +:+ t).
Proof. reflexivity. Qed.

Lemma append_nil_l (t : string) : "" +:+ t = t.
Proof. reflexivity. Qed.

Lemma append_assoc (s1 s2 s3 : string) :
  (s1 +:+ s2) +:+ s3 = s1 +:+ (s2 +:+ s3).
Proof.
  induction s1 as [|a s1 IH]; [done|].
  by rewrite !append_cons, IH.
Qed.

Lemma rev_app_append (cur t : string) :
  String.rev_app cur t = String.rev cur +:+ t.
Proof.
  unfold String.rev. revert t.
  induction cur as [|a cur IH]; intros t; cbn [String.rev_app]; [done|].
  rewrite (IH (String a t)), (IH (String a "")).
  by rewrite append_assoc.
Qed.

Lemma split_go_nonempty c cur s : Str.split_go c cur s ≠ [].
Proof.
  revert cur. induction s as [|a s IH]; intros cur; cbn; [done|].
  case_bool_decide; [done|apply IH].
Qed.

Lemma split_go_no_sep c cur s :
  Util.has_char c s = false →
  Str.split_go c cur s = [String.rev_app cur s].
Proof.
  revert cur. induction s as [|a s IH]; intros cur; cbn; [done|].
  intros [Ha Hs]%orb_false_iff. rewrite Ha. by apply IH.
Qed.

Lemma split_go_snoc c cur d b :
  Util.has_char c b = false →
  Str.split_go c cur (d +:+ String c b) = Str.split_go c cur d ++ [b].
Proof.
  intros Hb. revert cur. induction d as [|a d IH]; intros cur.
  - rewrite append_nil_l. cbn [Str.split_go].
    rewrite bool_decide_eq_true_2 by done.
    by rewrite (split_go_no_sep c "" b Hb).
  - rewrite append_cons. cbn [Str.split_go].
    case_bool_decide; by rewrite IH.
Qed.

Lemma join_cons sep x y l :
  Util.join sep (x :: y :: l) = x +:+ sep +:+ Util.join sep (y :: l).
Proof. done. Qed.

Lemma join_snoc sep l x :
  l ≠ [] → Util.join sep (l ++ [x]) = Util.join sep l +:+ sep +:+ x.
Proof.
  induction l as [|y l IH]; [done|]. intros _.
  destruct l as [|z l].
  - done.
  - change ((y :: z :: l) ++ [x]) with (y :: z :: (l ++ [x])).
    rewrite !join_cons.
    change (z :: l ++ [x]) with ((z :: l) ++ [x]).
    rewrite IH by done. by rewrite !append_assoc.
Qed.

Lemma join_split_go c cur s :
  Util.join (String c "") (Str.split_go c cur s) = String.rev_app cur s.
Proof.
  revert cur. induction s as [|a s IH]; intros cur; cbn [Str.split_go].
  - done.
  - case_bool_decide as Ha.
    + subst a. pose proof (split_go_nonempty c "" s) as Hne.
      destruct (Str.split_go c "" s) as [|y l] eqn:E; [done|].
      rewrite join_cons, <- E, IH. cbn [String.rev_app].
      by rewrite (rev_app_append cur (String c s)).
    + by rewrite IH.
Qed.

(** Joining the pieces of a split gives the text back. *)
Lemma join_split c s : Util.join (String c "") (Str.split c s) = s.
Proof. unfold Str.split. by rewrite join_split_go. Qed.

Lemma pop_snoc {A} (l : list A) (x : A) : Util.pop (l ++ [x]) = inr (x, l).
Proof. unfold Util.pop. by rewrite last_snoc, removelast_last. Qed.

Lemma insert_folder_slash d b folder :
  Util.has_char "/" b = false →
  Util.insert_folder (d +:+ "/" +:+ b) folder
  = inr (d +:+ "/" +:+ folder +:+ "/" +:+ b).
Proof.
  intros Hb. unfold Util.insert_folder, Str.split.
  change ("/" +:+ b) with (String "/" b).
  rewrite (split_go_snoc "/" "" d b Hb), pop_snoc. cbn [exn_bind fst snd].
  f_equal.
  change [folder; b] with ([folder] ++ [b]). rewrite app_assoc.
  rewrite join_snoc by (intros [? _]%app_eq_nil; by eapply split_go_nonempty).
  rewrite join_snoc by apply split_go_nonempty.
  rewrite join_split_go. cbn [String.rev_app].
  by rewrite !append_assoc.
Qed.

(** X8: [insert_folder] puts the folder before the last component of the
    path: for a path [d/b] whose last component [b] has no slash the
    result is [d/folder/b], whatever [d] and the folder are, and for a
    path without a slash it is [folder/path]; it never raises. *)
Theorem insert_folder_last_component :
  (∀ d b folder,
     Util.has_char "/" b = false →
     Util.insert_folder (d +:+ "/" +:+ b) folder
     = inr (d +:+ "/" +:+ folder +:+ "/" +:+ b))
  ∧ (∀ prepath folder,
     Util.has_char "/" prepath = false →
     Util.insert_folder prepath folder = inr (folder +:+ "/" +:+ prepath))
  ∧ (∀ prepath folder, ∃ path, Util.insert_folder prepath folder = inr path).
Proof.
  split; [|split].
  - apply insert_folder_slash.
  - intros prepath folder Hp. unfold Util.insert_folder, Str.split.
    rewrite (split_go_no_sep "/" "" prepath Hp). reflexivity.
  - intros prepath folder. unfold Util.insert_folder.
    destruct (Str.split "/" prepath) as [|x l] eqn:E using rev_ind.
    + by destruct (split_go_nonempty "/" "" prepath).
    + rewrite pop_snoc. cbn [exn_bind]. eauto.
Qed.

(** X9: [frame_mod] with a frequency of 0 raises [ZeroDivisionError];
    with a positive frequency and one environment ([num_envs] is [None],
    0 or 1) it is true exactly at the frames that the frequency
    divides. *)
Theorem frame_mod_single frame frequency num_envs :
  (frequency = 0%Z →
   Util.frame_mod frame frequency num_envs = inl Util.ZeroDivisionError)
  ∧ ((0 < frequency)%Z → num_envs ∈ [None; Some 0%Z; Some 1%Z] →
     ∃ b, Util.frame_mod frame frequency num_envs = inr b
          ∧ (b = true ↔ (frequency | frame)%Z)).
Proof.
  split.
  - intros ->. unfold Util.frame_mod. by rewrite bool_decide_eq_true_2.
  - intros Hf Hn. unfold Util.frame_mod.
    rewrite (bool_decide_eq_false_2 (frequency = 0)%Z) by lia.
    eexists. split; [reflexivity|].
    rewrite bool_decide_eq_true, <- Z.mod_divide by lia.
    pose proof (Z.mod_pos_bound frame frequency Hf).
    rewrite !elem_of_cons, elem_of_nil in Hn.
    destruct Hn as [->|[->|[->|[]]]]; repeat case_bool_decide; lia.
Qed.

(** X10: [frame_mod] with a positive frequency and [num_envs] at least 1
    is true exactly when one of the last [num_envs] frames, the current
    one included, is a multiple of the frequency; so it is always true
    once [num_envs] reaches the frequency. *)
Theorem frame_mod_window frame frequency n :
  (0 < frequency)%Z → (1 ≤ n)%Z →
  (Util.frame_mod frame frequency (Some n) = inr true
   ↔ ∃ j, (0 ≤ j < n)%Z ∧ (frequency | frame - j)%Z)
  ∧ ((frequency ≤ n)%Z →
     Util.frame_mod frame frequency (Some n) = inr true).
Proof.
  intros Hf Hn.
  assert (Hm : Util.frame_mod frame frequency (Some n)
               = inr (bool_decide (frame `mod` frequency < n)%Z)).
  { unfold Util.frame_mod.
    by rewrite (bool_decide_eq_false_2 (n = 0)%Z),
               (bool_decide_eq_false_2 (frequency = 0)%Z) by lia. }
  pose proof (Z.mod_pos_bound frame frequency Hf) as Hb.
  rewrite Hm. split.
  - split.
    + intros Ht. injection Ht as Ht. apply bool_decide_eq_true in Ht.
      exists (frame `mod` frequency)%Z. split; [lia|].
      exists (frame `div` frequency)%Z.
      pose proof (Z.div_mod frame frequency ltac:(lia)). lia.
    + intros [j [Hj [k Hk]]]. f_equal. apply bool_decide_eq_true.
      assert (Hfr : frame = (j + k * frequency)%Z) by lia.
      rewrite Hfr, Z.mod_add by lia.
      pose proof (Z.mod_le j frequency ltac:(lia) Hf). lia.
  - intros Hle. f_equal. apply bool_decide_eq_true. lia.
Qed.

Example get_prepath_session :
  Util.get_prepath
    (Util.Spec "dqn_pong"
       (Util.MetaSpec "2018_12_02_082510" (Some 0%Z) (Some 0%Z) (Some "best")))
    "session"
  = "output/dqn_pong_2018_12_02_082510/dqn_pong_t0_s0_ckpt-best".
Proof. reflexivity. Qed.

Example find_ckpt_session :
  Util.find_ckpt "output/dqn_pong_2018_12_02_082510/dqn_pong_t0_s0_ckpt-best"
  = inr (Some "best")
  ∧ Util.find_ckpt "output/dqn_pong_2018_12_02_082510/dqn_pong_t0_s0"
    = inr None
  ∧ Util.find_ckpt "output/run-ckpt_2018_12_02_082510" = inl AttributeError
  ∧ Util.find_ckpt "output/a_2018_12_02_082510/a_ckpt-my_best"
    = inr (Some "my").
Proof. repeat split; reflexivity. Qed.

Lemma append_nil_r (s : string) : s +:+ "" = s.
Proof.
  induction s as [|a s IH]; [done|]. by rewrite append_cons, IH.
Qed.

Lemma rev_cons (a : ascii) (cur : string) :
  String.rev (String a cur) = String.rev cur +:+ String a "".
Proof.
  unfold String.rev at 1. cbn [String.rev_app]. apply rev_app_append.
Qed.

Lemma contains_app_r (sub a t : string) :
  Util.contains sub t = true → Util.contains sub (a +:+ t) = true.
Proof.
  intros Ht. induction a as [|c a IH]; [done|].
  rewrite append_cons. cbn [Util.contains]. rewrite IH.
  apply orb_true_r.
Qed.

(** The pieces of [a], then the pieces of [b], for the text [a c b]. *)
Lemma split_go_app_sep c cur a b :
  Str.split_go c cur (a +:+ String c b)
  = Str.split_go c cur a ++ Str.split c b.
Proof.
  revert cur. induction a as [|x a IH]; intros cur.
  - rewrite append_nil_l. cbn [Str.split_go].
    by rewrite bool_decide_eq_true_2.
  - rewrite append_cons. cbn [Str.split_go].
    case_bool_decide; by rewrite IH.
Qed.

(** Characters already read go in front of the first piece. *)
Lemma split_go_cur c cur s p rest :
  Str.split_go c "" s = p :: rest →
  Str.split_go c cur s = (String.rev cur +:+ p) :: rest.
Proof.
  revert cur p rest.
  induction s as [|a s IH]; intros cur p rest; cbn [Str.split_go].
  - intros [= <- <-]. by rewrite append_nil_r.
  - case_bool_decide as Ha.
    + intros [= <- <-]. by rewrite append_nil_r.
    + intros Hs.
      pose proof (split_go_nonempty c "" s) as Hne.
      destruct (Str.split_go c "" s) as [|p' rest'] eqn:E; [done|].
      rewrite (IH (String a "") p' rest' eq_refl) in Hs.
      injection Hs as <- <-.
      rewrite (IH (String a cur) p' rest' eq_refl), rev_cons.
      by rewrite append_assoc.
Qed.

Lemma find_app_none {A} (f : A → bool) (l l' : list A) :
  Forall (λ x, f x = false) l → List.find f (l ++ l') = List.find f l'.
Proof.
  induction 1 as [|x l Hx _ IH]; [done|]. cbn. by rewrite Hx.
Qed.

Lemma find_none {A} (f : A → bool) (l : list A) :
  Forall (λ x, f x = false) l → List.find f l = None.
Proof.
  induction 1 as [|x l Hx _ IH]; [done|]. cbn. by rewrite Hx.
Qed.

Lemma replace_go_none old new s :
  Util.contains old s = false → Util.replace_go old new 0 s = s.
Proof.
  induction s as [|c s IH]; [done|].
  cbn [Util.contains Util.replace_go].
  intros [Hp Hs]%orb_false_iff. rewrite Hp. by rewrite IH.
Qed.

Lemma replace_ckpt_prefix p :
  Util.contains "ckpt-" p = false →
  Util.replace "ckpt-" "" ("ckpt-" +:+ p) = p.
Proof.
  intros Hp. unfold Util.replace.
  change ("ckpt-" +:+ p)
    with (String "c" (String "k" (String "p" (String "t" (String "-" p))))).
  cbn. destruct p; by rewrite ?replace_go_none.
Qed.

Lemma find_ckpt_suffix base name p rest :
  Forall (λ q, String.prefix "ckpt" q = false) (Str.split "_" base) →
  Str.split "_" name = p :: rest →
  Util.contains "ckpt-" p = false →
  Util.find_ckpt (base +:+ "_ckpt-" +:+ name) = inr (Some p).
Proof.
  intros Hbase Hname Hp. unfold Util.find_ckpt.
  rewrite contains_app_r by (by destruct name).
  change ("_ckpt-" +:+ name) with (String "_" ("ckpt-" +:+ name)).
  unfold Str.split. rewrite split_go_app_sep, (find_app_none _ _ _ Hbase).
  unfold Str.split.
  change ("ckpt-" +:+ name)
    with (String "c" (String "k" (String "p" (String "t"
            (String "-" name))))).
  cbn [Str.split_go].
  rewrite !(bool_decide_eq_false_2 (_ = "_"%char)) by done.
  rewrite (split_go_cur "_" _ name p rest Hname).
  change (String.rev "-tpkc") with "ckpt-".
  change ("ckpt-" +:+ p)
    with (String "c" (String "k" (String "p" (String "t" (String "-" p))))).
  cbn [List.find String.prefix].
  rewrite !(proj2 (Ascii.eqb_eq _ _) eq_refl) || idtac.
  f_equal. f_equal. by apply replace_ckpt_prefix.
Qed.

Lemma has_char_app c (a b : string) :
  Util.has_char c (a +:+ b) = Util.has_char c a || Util.has_char c b.
Proof.
  induction a as [|x a IH]; [done|].
  rewrite append_cons. cbn [Util.has_char]. by rewrite IH, orb_assoc.
Qed.

Lemma str_no_slash (n : Z) : Util.has_char "/" (Util.str n) = false.
Proof.
  assert (Hu : ∀ d, Util.has_char "/" (NilEmpty.string_of_uint d) = false).
  { induction d; cbn [NilEmpty.string_of_uint Util.has_char]; try done;
      by rewrite bool_decide_eq_false_2. }
  assert (Hz : ∀ d, Util.has_char "/" (NilZero.string_of_uint d) = false).
  { intros d. destruct d; try apply Hu. done. }
  unfold Util.str, NilZero.string_of_int.
  destruct (Z.to_int n); [apply Hz|].
  cbn [Util.has_char]. by rewrite bool_decide_eq_false_2, Hz.
Qed.

Lemma get_prepath_ckpt name ts trial session unit c :
  Util.get_prepath
    (Util.Spec name (Util.MetaSpec ts trial session (Some c))) unit
  = Util.get_prepath
      (Util.Spec name (Util.MetaSpec ts trial session None)) unit
    +:+ "_ckpt-" +:+ c.
Proof.
  unfold Util.get_prepath. cbn [Util.name Util.meta Util.ckpt].
  by rewrite !append_assoc.
Qed.

(** X11: [find_ckpt] on a path [base_ckpt-name] where no piece of
    [base] between underscores starts with [ckpt]: it returns the part
    of [name] before its first underscore (all of [name] when it has
    none), provided that part does not contain [ckpt-] again.  A path
    without [ckpt] gives [None]; a path where [ckpt] only occurs inside
    a piece, not at its start, raises [AttributeError]. *)
Theorem find_ckpt_cases :
  (∀ base name p rest,
     Forall (λ q, String.prefix "ckpt" q = false) (Str.split "_" base) →
     Str.split "_" name = p :: rest →
     Util.contains "ckpt-" p = false →
     Util.find_ckpt (base +:+ "_ckpt-" +:+ name) = inr (Some p))
  ∧ (∀ prepath,
     Util.contains "ckpt" prepath = false →
     Util.find_ckpt prepath = inr None)
  ∧ (∀ prepath,
     Util.contains "ckpt" prepath = true →
     Forall (λ q, String.prefix "ckpt" q = false) (Str.split "_" prepath) →
     Util.find_ckpt prepath = inl AttributeError).
Proof.
  split; [|split].
  - apply find_ckpt_suffix.
  - intros prepath Hc. unfold Util.find_ckpt. by rewrite Hc.
  - intros prepath Hc Hp. unfold Util.find_ckpt.
    by rewrite Hc, (find_none _ _ Hp).
Qed.

(** X12: [find_ckpt] gives back the [ckpt] that [get_prepath] wrote
    into the path, when the [ckpt] has no underscore and no [ckpt-]
    inside and no piece of the path without the [ckpt] starts with
    [ckpt]. *)
Theorem get_prepath_find_ckpt name ts trial session unit c :
  Forall (λ q, String.prefix "ckpt" q = false)
    (Str.split "_"
       (Util.get_prepath
          (Util.Spec name (Util.MetaSpec ts trial session None)) unit)) →
  Util.has_char "_" c = false →
  Util.contains "ckpt-" c = false →
  Util.find_ckpt
    (Util.get_prepath
       (Util.Spec name (Util.MetaSpec ts trial session (Some c))) unit)
  = inr (Some c).
Proof.
  intros Hbase Hc Hcc. rewrite get_prepath_ckpt.
  apply (find_ckpt_suffix _ c c []); [done| |done].
  unfold Str.split. by rewrite (split_go_no_sep "_" "" c Hc).
Qed.

(** X13: the path that [set_logger] stores, [insert_folder] of
    [get_prepath] and [log]: when the name of the spec and its [ckpt]
    have no slash, it is the path of [get_prepath] with [log] between
    its directory [output/NAME_TS] and its last component. *)
Theorem log_prepath spec unit :
  Util.has_char "/" (Util.name spec) = false →
  (∀ c, Util.ckpt (Util.meta spec) = Some c → Util.has_char "/" c = false) →
  ∃ prename,
    let predir :=
      "output/" +:+ Util.name spec +:+ "_"
      +:+ Util.experiment_ts (Util.meta spec) in
    Util.get_prepath spec unit = predir +:+ "/" +:+ prename
    ∧ Util.insert_folder (Util.get_prepath spec unit) "log"
      = inr (predir +:+ "/" +:+ "log" +:+ "/" +:+ prename).
Proof.
  intros Hname Hckpt. destruct spec as [name [ts trial session ckpt]].
  cbn [Util.name Util.meta Util.ckpt Util.experiment_ts] in *.
  unfold Util.get_prepath.
  cbn [Util.name Util.meta Util.ckpt Util.experiment_ts Util.trial
       Util.session].
  eexists. split; [reflexivity|].
  apply insert_folder_slash.
  assert (Ht : Util.has_char "/"
                 match trial with
                 | Some t => "_t" +:+ Util.str t
                 | None => ""
                 end = false).
  { destruct trial; [|done]. by rewrite has_char_app, str_no_slash. }
  assert (Hs : Util.has_char "/"
                 match session with
                 | Some t => "_s" +:+ Util.str t
                 | None => ""
                 end = false).
  { destruct session; [|done]. by rewrite has_char_app, str_no_slash. }
  destruct ckpt as [c|]; repeat case_bool_decide;
    rewrite ?has_char_app, ?Hname, ?Ht, ?Hs, ?(Hckpt c eq_refl); done.
Qed.

(** ** The further properties at concrete inputs *)

Lemma query_missing_collection_witness :
  "hotel" ≠ "taxi"
  ∧ (query stem_lower (list nat) tape_randbelow fixture "hotel"
       [("area", "north")] true [3; 1]).2 = [3; 1]
  ∧ ((query stem_lower (list nat) tape_randbelow fixture "hotel"
        [("area", "north")] true [3; 1]).1 = inl KeyError
     ↔ record_dbs fixture !! "hotel" = None)
  ∧ (∀ e, (query stem_lower (list nat) tape_randbelow fixture "hotel"
             [("area", "north")] true [3; 1]).1 = inl e → e = KeyError).
Proof.
  split; [discriminate|].
  apply (query_missing_collection stem_lower (list nat) tape_randbelow
           fixture "hotel"). discriminate.
Defined.

Lemma taxi_missing_options_witness :
  (taxi_db (Store ∅ ∅) !! "taxi_colors" = None
   ∧ query stem_lower (list nat) tape_randbelow (Store ∅ ∅) "taxi" [] true
       [3; 1]
     = (inl KeyError, [3; 1]))
  ∧ (taxi_db (Store {[ "taxi_colors" := VList [] ]} ∅) !! "taxi_colors"
     = Some (VList [])
     ∧ query stem_lower (list nat) tape_randbelow
         (Store {[ "taxi_colors" := VList [] ]} ∅) "taxi" [] true [3; 1]
       = (inl IndexError, [3; 1]))
  ∧ (taxi_db (Store {[ "taxi_colors" := VList [VStr "black"] ]} ∅)
       !! "taxi_types" = None
     ∧ (query stem_lower (list nat) tape_randbelow
          (Store {[ "taxi_colors" := VList [VStr "black"] ]} ∅) "taxi" []
          true [3; 1]).1
       = inl KeyError).
Proof.
  split; [|split].
  - split; [reflexivity|].
    apply (taxi_missing_options stem_lower (list nat) tape_randbelow
             tape_randbelow_lt (Store ∅ ∅)). reflexivity.
  - split; [reflexivity|].
    apply (taxi_missing_options stem_lower (list nat) tape_randbelow
             tape_randbelow_lt (Store {[ "taxi_colors" := VList [] ]} ∅)).
    reflexivity.
  - split; [reflexivity|].
    apply (taxi_missing_options stem_lower (list nat) tape_randbelow
             tape_randbelow_lt
             (Store {[ "taxi_colors" := VList [VStr "black"] ]} ∅) [] true
             [3; 1]) with (colors := [VStr "black"]);
      (reflexivity || discriminate).
Defined.

Lemma constraints_order_irrelevant_witness :
  [("leaveAt", "08:30"); ("destination", "cambridge")]
  ≡ₚ [("destination", "cambridge"); ("leaveAt", "08:30")]
  ∧ query stem_lower (list nat) tape_randbelow fixture "train"
      [("leaveAt", "08:30"); ("destination", "cambridge")] false []
    = query stem_lower (list nat) tape_randbelow fixture "train"
        [("destination", "cambridge"); ("leaveAt", "08:30")] false [].
Proof.
  assert (Hp : [("leaveAt", "08:30"); ("destination", "cambridge")]
               ≡ₚ [("destination", "cambridge"); ("leaveAt", "08:30")])
    by apply perm_swap.
  split; [exact Hp|].
  apply (constraints_order_irrelevant stem_lower (list nat) tape_randbelow
           fixture "train" _ _ false [] Hp).
Defined.

Lemma constraints_compose_witness :
  query stem_lower (list nat) tape_randbelow fixture "train"
    [("destination", "cambridge")] false []
  = (inr [train_0800; train_0930], [])
  ∧ ∃ found',
      query stem_lower (list nat) tape_randbelow fixture "train"
        ([("destination", "cambridge")] ++ [("leaveAt", "08:30")]) false []
      = (inr found', [])
      ∧ found'
        = filter (λ r, forallb (satisfied stem_lower false r)
                         [("leaveAt", "08:30")] = true)
            [train_0800; train_0930]
      ∧ sublist found' [train_0800; train_0930].
Proof.
  split; [reflexivity|].
  apply (constraints_compose stem_lower (list nat) tape_randbelow fixture
           "train"); (reflexivity || discriminate).
Defined.

Lemma ignore_open_monotone_witness :
  (query stem_lower (list nat) tape_randbelow fixture "train"
     [("destination", "ely")] false []
   = (inr [], [])
   ∧ ∃ found',
       query stem_lower (list nat) tape_randbelow fixture "train"
         [("destination", "ely")] true []
       = (inr found', [])
       ∧ [] = filter (λ r, forallb (satisfied stem_lower false r)
                             [("destination", "ely")] = true) found'
       ∧ sublist [] found')
  ∧ ((∀ c, c ∈ [("leaveAt", "08:30")] →
           c.1 ∉ ["destination"; "departure"])
     ∧ query stem_lower (list nat) tape_randbelow fixture "train"
         [("leaveAt", "08:30")] false []
       = query stem_lower (list nat) tape_randbelow fixture "train"
           [("leaveAt", "08:30")] true []).
Proof.
  split.
  - split; [reflexivity|].
    apply (proj1 (ignore_open_monotone stem_lower (list nat) tape_randbelow
                    fixture "train" [("destination", "ely")] []));
      (reflexivity || discriminate).
  - assert (Hk : ∀ c : string * string,
               c ∈ [("leaveAt", "08:30")] →
               c.1 ∉ ["destination"; "departure"]).
    { intros c Hc. apply list_elem_of_singleton in Hc. subst c. cbn.
      intros Hin. apply elem_of_cons in Hin as [Hin|Hin]; [discriminate|].
      apply list_elem_of_singleton in Hin. discriminate. }
    split; [exact Hk|].
    apply (proj2 (ignore_open_monotone stem_lower (list nat) tape_randbelow
                    fixture "train" [("leaveAt", "08:30")] []) Hk).
Defined.

Lemma clock_order_witness :
  8 < 100 ∧ 30 < 60 ∧ 9 < 100 ∧ 30 < 60
  ∧ train_0930 !! "leaveAt" = Some (VStr (clock 9 30))
  ∧ (satisfied stem_lower true train_0930 ("leaveAt", clock 8 30) = true
     ↔ 8 * 60 + 30 ≤ 9 * 60 + 30).
Proof.
  split; [lia|]. split; [lia|]. split; [lia|]. split; [lia|].
  split; [reflexivity|].
  apply (proj1 (clock_order stem_lower true train_0930 8 30 9 30
                  ltac:(lia) ltac:(lia) ltac:(lia) ltac:(lia))).
  reflexivity.
Defined.

Lemma insert_folder_last_component_witness :
  (Util.has_char "/" "dqn_pong_t0_s0" = false
   ∧ Util.insert_folder
       ("output/dqn_pong_2018_12_02_082510" +:+ "/" +:+ "dqn_pong_t0_s0")
       "log"
     = inr ("output/dqn_pong_2018_12_02_082510" +:+ "/" +:+ "log" +:+ "/"
            +:+ "dqn_pong_t0_s0"))
  ∧ (Util.has_char "/" "dqn_pong_t0_s0" = false
     ∧ Util.insert_folder "dqn_pong_t0_s0" "log"
       = inr ("log" +:+ "/" +:+ "dqn_pong_t0_s0")).
Proof.
  destruct insert_folder_last_component as [Hdir [Hflat _]].
  split.
  - split; [reflexivity|]. apply Hdir. reflexivity.
  - split; [reflexivity|]. apply Hflat. reflexivity.
Defined.

Lemma frame_mod_single_witness :
  (0 < 10)%Z ∧ None ∈ [None; Some 0%Z; Some 1%Z]
  ∧ ∃ b, Util.frame_mod 30 10 None = inr b ∧ (b = true ↔ (10 | 30)%Z).
Proof.
  assert (Hin : None ∈ [None; Some 0%Z; Some 1%Z]) by apply list_elem_of_here.
  split; [lia|]. split; [exact Hin|].
  apply (proj2 (frame_mod_single 30 10 None) ltac:(lia) Hin).
Defined.

Lemma frame_mod_window_witness :
  (0 < 10)%Z ∧ (1 ≤ 4)%Z
  ∧ (Util.frame_mod 33 10 (Some 4%Z) = inr true
     ↔ ∃ j, (0 ≤ j < 4)%Z ∧ (10 | 33 - j)%Z)
  ∧ ((10 ≤ 4)%Z → Util.frame_mod 33 10 (Some 4%Z) = inr true).
Proof.
  split; [lia|]. split; [lia|].
  apply (frame_mod_window 33 10 4); lia.
Defined.

Lemma find_ckpt_cases_witness :
  (Forall (λ q, String.prefix "ckpt" q = false)
     (Str.split "_" "output/a_2018_12_02_082510/a_t0")
   ∧ Str.split "_" "my_best" = ["my"; "best"]
   ∧ Util.contains "ckpt-" "my" = false
   ∧ Util.find_ckpt ("output/a_2018_12_02_082510/a_t0" +:+ "_ckpt-"
                     +:+ "my_best")
     = inr (Some "my"))
  ∧ (Util.contains "ckpt" "output/a_2018_12_02_082510/a_t0" = false
     ∧ Util.find_ckpt "output/a_2018_12_02_082510/a_t0" = inr None)
  ∧ (Util.contains "ckpt" "output/run-ckpt_2018_12_02_082510" = true
     ∧ Forall (λ q, String.prefix "ckpt" q = false)
         (Str.split "_" "output/run-ckpt_2018_12_02_082510")
     ∧ Util.find_ckpt "output/run-ckpt_2018_12_02_082510"
       = inl AttributeError).
Proof.
  destruct find_ckpt_cases as [Hname [Hnone Hraise]].
  assert (H1 : Forall (λ q, String.prefix "ckpt" q = false)
                 (Str.split "_" "output/a_2018_12_02_082510/a_t0")).
  { refine (bool_decide_unpack _ _). vm_compute. exact I. }
  assert (H2 : Forall (λ q, String.prefix "ckpt" q = false)
                 (Str.split "_" "output/run-ckpt_2018_12_02_082510")).
  { refine (bool_decide_unpack _ _). vm_compute. exact I. }
  split; [|split].
  - split; [exact H1|]. split; [reflexivity|]. split; [reflexivity|].
    apply (Hname _ "my_best" "my" ["best"] H1); reflexivity.
  - split; [reflexivity|]. apply Hnone. reflexivity.
  - split; [reflexivity|]. split; [exact H2|].
    apply (Hraise "output/run-ckpt_2018_12_02_082510" eq_refl H2).
Defined.

Lemma get_prepath_find_ckpt_witness :
  Forall (λ q, String.prefix "ckpt" q = false)
    (Str.split "_"
       (Util.get_prepath
          (Util.Spec "dqn_pong"
             (Util.MetaSpec "2018_12_02_082510" (Some 0%Z) (Some 0%Z) None))
          "session"))
  ∧ Util.has_char "_" "best" = false
  ∧ Util.contains "ckpt-" "best" = false
  ∧ Util.find_ckpt
      (Util.get_prepath
         (Util.Spec "dqn_pong"
            (Util.MetaSpec "2018_12_02_082510" (Some 0%Z) (Some 0%Z)
               (Some "best")))
         "session")
    = inr (Some "best").
Proof.
  assert (H1 : Forall (λ q, String.prefix "ckpt" q = false)
                 (Str.split "_"
                    (Util.get_prepath
                       (Util.Spec "dqn_pong"
                          (Util.MetaSpec "2018_12_02_082510" (Some 0%Z)
                             (Some 0%Z) None))
                       "session"))).
  { refine (bool_decide_unpack _ _). vm_compute. exact I. }
  split; [exact H1|]. split; [reflexivity|]. split; [reflexivity|].
  apply (get_prepath_find_ckpt "dqn_pong" "2018_12_02_082510" (Some 0%Z)
           (Some 0%Z) "session" "best" H1); reflexivity.
Defined.

Lemma log_prepath_witness :
  Util.has_char "/" "dqn_pong" = false
  ∧ ∃ prename,
      Util.get_prepath
        (Util.Spec "dqn_pong"
           (Util.MetaSpec "2018_12_02_082510" (Some 0%Z) None (Some "best")))
        "trial"
      = ("output/" +:+ "dqn_pong" +:+ "_" +:+ "2018_12_02_082510")
        +:+ "/" +:+ prename
      ∧ Util.insert_folder
          (Util.get_prepath
             (Util.Spec "dqn_pong"
                (Util.MetaSpec "2018_12_02_082510" (Some 0%Z) None
                   (Some "best")))
             "trial")
          "log"
        = inr (("output/" +:+ "dqn_pong" +:+ "_" +:+ "2018_12_02_082510")
               +:+ "/" +:+ "log" +:+ "/" +:+ prename).
Proof.
  split; [reflexivity|].
  apply (log_prepath
           (Util.Spec "dqn_pong"
              (Util.MetaSpec "2018_12_02_082510" (Some 0%Z) None
                 (Some "best")))
           "trial"); [reflexivity|].
  intros c Hc. injection Hc as <-. reflexivity.
Defined.

Example log_prepath_trial :
  Util.insert_folder
    (Util.get_prepath
       (Util.Spec "dqn_pong"
          (Util.MetaSpec "2018_12_02_082510" (Some 0%Z) None (Some "best")))
       "trial")
    "log"
  = inr "output/dqn_pong_2018_12_02_082510/log/dqn_pong_t0_ckpt-best".
Proof. reflexivity. Qed.
